(** * kivent: game systems, the current-map slot and the scrolling game view

    A shallow embedding of [kivent/gamesystems.py]: the [GameSystem] base
    class, the [GameMap] system that publishes itself as the world's current
    map, and the [GameView] camera with its scroll clamp ([lock_scroll]),
    focus-follow [update] and the guarded re-render cascade
    ([on_camera_pos]).

    Conventions of the embedding.
    - Python numbers (ints and floats) are modelled as exact rationals
      ([Q]): the rounding of floats is not modelled, and what is proved
      over [Q] is the branch and control structure of the code, which is
      the same with float operations.  Comparisons are the boolean ones of
      [QArith].  Module [Binary64] gives the scroll clamp on IEEE-754
      doubles, for the one place where rounding decides the result.
    - A raised exception is [Raise e]; a method that may raise returns
      [Result A].
    - [self] of a [GameSystem] or [GameView] method is threaded explicitly.
      Objects that are reached through a reference held by the world
      ([gameworld.currentmap], [gameworld.systems[k]]) live in the world's
      object store and are named by their identity ([ObjId]); the store
      holds the systems other than the receiver view.
    - The methods of [GameView] are those of a view whose instance has no
      attribute of its own named [lock_scroll]; module [Shadowing] gives
      them for a view on which [view.lock_scroll = v] has been assigned.
    - Output ([print]) and the calls [update(None)] made on other systems
      are recorded in a trace of [Event]s; [GameSystem.update] is [pass],
      so such a call changes no state. *)

From Stdlib Require Import QArith Qabs Lqa PrimFloat.
From stdpp Require Import gmap strings list fin_maps.

Local Open Scope string_scope.

(** ** Python values, exceptions *)

Inductive PyError :=
  | KeyError
  | IndexError
  | ValueError
  | AttributeError
  | TypeError.

Inductive Result (A : Type) :=
  | Ok (a : A)
  | Raise (e : PyError).
Arguments Ok {A} a.
Arguments Raise {A} e.

#[global] Instance Result_ret : MRet Result := fun _ a => Ok a.
#[global] Instance Result_bind : MBind Result := fun _ _ f m =>
  match m with
  | Ok a => f a
  | Raise e => Raise e
  end.

Set Warnings "-register-all".

(** Component payloads and property defaults are duck-typed: [None],
    booleans, numbers, strings, sequences and dictionaries with string
    keys. *)
Inductive PyVal :=
  | PyNone
  | PyBool (b : bool)
  | PyNum (q : Q)
  | PyStr (s : string)
  | PySeq (items : list PyVal)
  | PyDict (items : list (string * PyVal)).

Set Warnings "register-all".

Fixpoint assoc_lookup (k : string) (items : list (string * PyVal)) : option PyVal :=
  match items with
  | [] => None
  | (k', v) :: rest => if decide (k = k') then Some v else assoc_lookup k rest
  end.

(** [v[k]] for a string key. *)
Definition getitem_key (v : PyVal) (k : string) : Result PyVal :=
  match v with
  | PyDict items =>
      match assoc_lookup k items with
      | Some x => Ok x
      | None => Raise KeyError
      end
  | _ => Raise TypeError
  end.

(** [v[i]] for an index [i >= 0], read as a number; a boolean counts as
    1 or 0 in arithmetic. *)
Definition getitem_num (v : PyVal) (i : nat) : Result Q :=
  match v with
  | PySeq items =>
      match items !! i with
      | Some (PyNum q) => Ok q
      | Some (PyBool b) => Ok (if b then 1%Q else 0%Q)
      | Some _ => Raise TypeError
      | None => Raise IndexError
      end
  | _ => Raise TypeError
  end.

(** [l.remove(x)]: drops the first item equal to [x]; [ValueError] when
    there is none. *)
Fixpoint list_remove (x : nat) (l : list nat) : Result (list nat) :=
  match l with
  | [] => Raise ValueError
  | y :: l' =>
      if decide (x = y) then Ok l'
      else l'' ← list_remove x l'; Ok (y :: l'')
  end.

Definition Vec2 : Type := Q * Q.

(** [a > b] on Python numbers. *)
Definition Qgt_bool (a b : Q) : bool := negb (Qle_bool a b).

(** ** Objects *)

(** Entity ids and object identities are natural numbers. *)
Abbreviation EntityId := nat (only parsing).
Abbreviation ObjId := nat (only parsing).

(** The [gameworld] property of a system is [None] or the world. *)
Inductive WorldRef := TheWorld.

Record game_system := mk_game_system {
  system_id : string;
  updateable : bool;
  renderable : bool;
  paused : bool;
  active : bool;
  gameworld : option WorldRef;
  viewport : string;
  entity_ids : list EntityId
}.

Record game_map := mk_game_map {
  map_base : game_system;
  map_size : Vec2
}.

Record game_view := mk_game_view {
  view_base : game_system;
  camera_pos : Vec2;
  size : Vec2;
  pos : Vec2;
  do_scroll : bool;
  focus_entity : bool;
  entity_to_focus : option EntityId;
  focus_position_info_from : string;
  has_camera_updated : bool;
  force_camera_update : bool
}.

(** The objects the world refers to: plain systems and maps. *)
Inductive system_obj :=
  | AGameSystem (s : game_system)
  | AGameMap (m : game_map).

Definition base_of (o : system_obj) : game_system :=
  match o with
  | AGameSystem s => s
  | AGameMap m => map_base m
  end.

(** The world collaborator: [entities[id]] is the entity's mapping from
    system id to component data, [systems] is the dictionary of systems in
    its iteration order, [currentmap] the single current-map slot. *)
Record game_world := mk_game_world {
  entities : gmap EntityId (gmap string PyVal);
  systems : list (string * ObjId);
  currentmap : option ObjId;
  objects : gmap ObjId system_obj
}.

Inductive Event :=
  | Printed (s : string)
  | UpdateCall (system : string) (dt : option Q).

Record motion_event := mk_motion_event { dx : Q; dy : Q }.

Definition set_active (b : bool) (s : game_system) : game_system :=
  mk_game_system (system_id s) (updateable s) (renderable s) (paused s) b
    (gameworld s) (viewport s) (entity_ids s).

Definition set_entity_ids (l : list EntityId) (s : game_system) : game_system :=
  mk_game_system (system_id s) (updateable s) (renderable s) (paused s)
    (active s) (gameworld s) (viewport s) l.

Definition set_map_base (s : game_system) (m : game_map) : game_map :=
  mk_game_map s (map_size m).

Definition set_camera_pos (c : Vec2) (v : game_view) : game_view :=
  mk_game_view (view_base v) c (size v) (pos v) (do_scroll v) (focus_entity v)
    (entity_to_focus v) (focus_position_info_from v) (has_camera_updated v)
    (force_camera_update v).

Definition set_focus_entity (b : bool) (v : game_view) : game_view :=
  mk_game_view (view_base v) (camera_pos v) (size v) (pos v) (do_scroll v) b
    (entity_to_focus v) (focus_position_info_from v) (has_camera_updated v)
    (force_camera_update v).

Definition set_has_camera_updated (b : bool) (v : game_view) : game_view :=
  mk_game_view (view_base v) (camera_pos v) (size v) (pos v) (do_scroll v)
    (focus_entity v) (entity_to_focus v) (focus_position_info_from v) b
    (force_camera_update v).

Definition set_entities (e : gmap EntityId (gmap string PyVal)) (w : game_world)
  : game_world :=
  mk_game_world e (systems w) (currentmap w) (objects w).

Definition set_currentmap (c : option ObjId) (w : game_world) : game_world :=
  mk_game_world (entities w) (systems w) c (objects w).

Definition set_objects (o : gmap ObjId system_obj) (w : game_world) : game_world :=
  mk_game_world (entities w) (systems w) (currentmap w) o.

(** [s.gameworld.<attr>]: [AttributeError] on [None]. *)
Definition the_gameworld (s : game_system) (w : game_world) : Result game_world :=
  match gameworld s with
  | Some TheWorld => Ok w
  | None => Raise AttributeError
  end.

(** [gameworld.entities[entity_id]] *)
Definition entities_getitem (w : game_world) (entity_id : EntityId)
  : Result (gmap string PyVal) :=
  match entities w !! entity_id with
  | Some e => Ok e
  | None => Raise KeyError
  end.

(** [entity[key]] *)
Definition entity_getitem (entity : gmap string PyVal) (key : string) : Result PyVal :=
  match entity !! key with
  | Some c => Ok c
  | None => Raise KeyError
  end.

(** ** class GameSystem *)

Module GameSystem.

(** The load hook a subclass may override. *)
Class Hooks := { generate_component_data : game_system -> PyVal -> PyVal }.

(** [GameSystem.generate_component_data] returns its argument. *)
Definition base_hooks : Hooks :=
  {| generate_component_data := fun _ entity_component_dict => entity_component_dict |}.

(** [__init__]: a fresh system manages no entity. *)
Definition init (s : game_system) : game_system := set_entity_ids [] s.

Definition update (self : game_system) (dt : option Q) : game_system := self.

Definition create_component `{Hooks} (self : game_system) (entity_id : EntityId)
    (entity_component_dict : PyVal) (w : game_world)
  : Result (game_system * game_world) :=
  gw ← the_gameworld self w;
  entity ← entities_getitem gw entity_id;
  let entity :=
    <[system_id self := generate_component_data self entity_component_dict]> entity in
  let gw := set_entities (<[entity_id := entity]> (entities gw)) gw in
  Ok (set_entity_ids (entity_ids self ++ [entity_id])%list self, gw).

Definition generate_entity_component_dict (self : game_system)
    (entity_id : EntityId) (w : game_world) : Result PyVal :=
  gw ← the_gameworld self w;
  entity ← entities_getitem gw entity_id;
  entity_getitem entity (system_id self).

Definition save_component (self : game_system) (entity_id : EntityId)
    (w : game_world) : Result PyVal :=
  entity_component_dict ← generate_entity_component_dict self entity_id w;
  Ok entity_component_dict.

Definition remove_entity (self : game_system) (entity_id : EntityId)
  : Result game_system :=
  l ← list_remove entity_id (entity_ids self);
  Ok (set_entity_ids l self).

Definition on_remove_system (self : game_system) : game_system :=
  set_active false self.

Definition on_add_system (self : game_system) : game_system :=
  set_active true self.

End GameSystem.

(** ** class GameMap(GameSystem) *)

Module GameMap.

(** A [GameMap] method runs on a receiver [self] of the object store and
    returns the world it leaves behind together with the outcome of the
    call: attribute writes made before an exception is raised stay. *)

Definition on_add_system (self : ObjId) (w : game_world)
  : game_world * Result unit :=
  match objects w !! self with
  | Some (AGameMap m) =>
      let m := set_map_base (GameSystem.on_add_system (map_base m)) m in
      let w := set_objects (<[self := AGameMap m]> (objects w)) w in
      match gameworld (map_base m) with
      | Some TheWorld => (set_currentmap (Some self) w, Ok tt)
      | None => (w, Ok tt)
      end
  | _ => (w, Raise TypeError)
  end.

Definition on_remove_system (self : ObjId) (w : game_world)
  : game_world * Result unit :=
  match objects w !! self with
  | Some (AGameMap m) =>
      let m := set_map_base (GameSystem.on_remove_system (map_base m)) m in
      let w := set_objects (<[self := AGameMap m]> (objects w)) w in
      match gameworld (map_base m) with
      | Some TheWorld =>
          if decide (currentmap w = Some self)
          then (set_currentmap None w, Ok tt)
          else (w, Ok tt)
      | None => (w, Raise AttributeError)
      end
  | _ => (w, Raise TypeError)
  end.

End GameMap.

(** ** class GameView(GameSystem) *)

Module GameView.

Local Open Scope Q_scope.

(** *** The class namespace

    A class body is executed top to bottom and every assignment or [def]
    binds its name in the class namespace, a later binding replacing an
    earlier one. *)

Inductive class_attr :=
  | Property (default : PyVal)
  | Function.

Definition GameSystem_body : list (string * class_attr) :=
  [ ("system_id", Property (PyStr "default_id"));
    ("updateable", Property (PyBool false));
    ("renderable", Property (PyBool false));
    ("paused", Property (PyBool false));
    ("active", Property (PyBool true));
    ("gameworld", Property PyNone);
    ("viewport", Property (PyStr "default_gameview"));
    ("__init__", Function);
    ("update", Function);
    ("draw_entity", Function);
    ("generate_component_data", Function);
    ("create_component", Function);
    ("generate_entity_component_dict", Function);
    ("save_component", Function);
    ("remove_entity", Function);
    ("on_init_system", Function);
    ("on_remove_system", Function);
    ("on_add_system", Function);
    ("on_delete_system", Function) ].

Definition GameView_body : list (string * class_attr) :=
  [ ("system_id", Property (PyStr "default_gameview"));
    ("lock_scroll", Property (PyBool true));
    ("camera_pos", Property (PySeq [PyNum 0; PyNum 0]));
    ("do_scroll", Property (PyBool false));
    ("focus_entity", Property (PyBool false));
    ("entity_to_focus", Property PyNone);
    ("focus_position_info_from", Property (PyStr "cymunk-physics"));
    ("updateable", Property (PyBool true));
    ("paused", Property (PyBool true));
    ("has_camera_updated", Property (PyBool false));
    ("force_camera_update", Property (PyBool false));
    ("on_entity_to_focus", Function);
    ("update", Function);
    ("on_size", Function);
    ("on_camera_pos", Function);
    ("on_touch_move", Function);
    ("lock_scroll", Function) ].

Definition class_namespace (body : list (string * class_attr))
  : gmap string class_attr :=
  foldl (fun ns b => <[b.1 := b.2]> ns) ∅ body.

(** Attribute lookup through the classes [GameView], [GameSystem]. *)
Definition class_lookup (name : string) : option class_attr :=
  match class_namespace GameView_body !! name with
  | Some a => Some a
  | None => class_namespace GameSystem_body !! name
  end.

Definition truthy (v : PyVal) : bool :=
  match v with
  | PyNone => false
  | PyBool b => b
  | PyNum q => negb (Qeq_bool q 0)
  | PyStr s => negb (String.eqb s "")
  | PySeq items => match items with [] => false | _ => true end
  | PyDict items => match items with [] => false | _ => true end
  end.

(** [self.lock_scroll] read as a condition, on a view whose instance has
    no attribute [lock_scroll] of its own.  A name bound to a function
    yields a bound method, which is true; a name bound to a property
    would yield the property's value, never assigned in this module. *)
Definition self_lock_scroll : Result bool :=
  match class_lookup "lock_scroll" with
  | Some Function => Ok true
  | Some (Property default) => Ok (truthy default)
  | None => Raise AttributeError
  end.

(** [self.gameworld.currentmap.map_size] *)
Definition currentmap_map_size (self : game_view) (w : game_world) : Result Vec2 :=
  gw ← the_gameworld (view_base self) w;
  match currentmap gw with
  | None => Raise AttributeError
  | Some o =>
      match objects gw !! o with
      | Some (AGameMap m) => Ok (map_size m)
      | _ => Raise AttributeError
      end
  end.

(** [self.gameworld.currentmap] read as a condition. *)
Definition currentmap_truthy (self : game_view) (w : game_world) : Result bool :=
  gw ← the_gameworld (view_base self) w;
  Ok (match currentmap gw with Some _ => true | None => false end).

Definition on_entity_to_focus (self : game_view) (value : option EntityId)
  : game_view :=
  match value with
  | Some _ => set_focus_entity true self
  | None => set_focus_entity false self
  end.

Definition lock_scroll (self : game_view) (w : game_world)
    (distance_x distance_y : Q) : Result (Q * Q) :=
  let camera_pos := camera_pos self in
  map_size ← currentmap_map_size self w;
  let size := size self in
  let pos := pos self in
  let distance_x :=
    if Qgt_bool (camera_pos.1 + distance_x) pos.1 then
      pos.1 - camera_pos.1
    else if Qle_bool (camera_pos.1 + map_size.1 + distance_x) (pos.1 + size.1) then
      pos.1 + size.1 - camera_pos.1 - map_size.1
    else distance_x in
  let distance_y :=
    if Qgt_bool (camera_pos.2 + distance_y) pos.2 then
      pos.2 - camera_pos.2
    else if Qle_bool (camera_pos.2 + map_size.2 + distance_y) (pos.2 + size.2) then
      pos.2 + size.2 - camera_pos.2 - map_size.2
    else distance_y in
  Ok (distance_x, distance_y).

(** One axis of [lock_scroll]: the value its [if]/[elif] chain leaves in
    the delta [d], for camera coordinate [c], map extent [msz], viewport
    origin [p] and viewport extent [sz]. *)
Definition clamp_axis (c msz p sz d : Q) : Q :=
  if Qgt_bool (c + d) p then p - c
  else if Qle_bool (c + msz + d) (p + sz) then p + sz - c - msz
  else d.

(** The systems [update(None)] is called on by the cascade, in the
    iteration order of [gameworld.systems]. *)
Fixpoint cascade (keys : list string) (gw : game_world) : Result (list Event) :=
  match keys with
  | [] => Ok []
  | system :: rest =>
      o ← match (list_to_map (systems gw) : gmap string ObjId) !! system with
          | Some r =>
              match objects gw !! r with
              | Some o => Ok o
              | None => Raise AttributeError
              end
          | None => Raise KeyError
          end;
      let here :=
        if renderable (base_of o) && active (base_of o)
        then [UpdateCall system None] else [] in
      later ← cascade rest gw;
      Ok (here ++ later)%list
  end.

Definition on_camera_pos (self : game_view) (w : game_world)
  : Result (game_view * list Event) :=
  if force_camera_update self then
    if negb (has_camera_updated self) then
      gw ← the_gameworld (view_base self) w;
      calls ← cascade (systems gw).*1 gw;
      Ok (set_has_camera_updated true self, Printed "camera updating" :: calls)
    else
      Ok (set_has_camera_updated false self, [])
  else Ok (self, []).

(** [self.camera_pos[i] = value]: the list property notifies its
    observer [on_camera_pos] on every item assignment. *)
Definition camera_pos_setitem (i : nat) (value : Q) (self : game_view)
    (w : game_world) : Result (game_view * list Event) :=
  match i with
  | 0%nat => on_camera_pos (set_camera_pos (value, (camera_pos self).2) self) w
  | 1%nat => on_camera_pos (set_camera_pos ((camera_pos self).1, value) self) w
  | _ => Raise IndexError
  end.

(** [self.camera_pos[0] += dist_x; self.camera_pos[1] += dist_y] *)
Definition camera_pos_iadd (dist_x dist_y : Q) (self : game_view)
    (w : game_world) : Result (game_view * list Event) :=
  '(self, t0) ← camera_pos_setitem 0%nat ((camera_pos self).1 + dist_x) self w;
  '(self, t1) ← camera_pos_setitem 1%nat ((camera_pos self).2 + dist_y) self w;
  Ok (self, (t0 ++ t1)%list).

Definition update (self : game_view) (w : game_world) (dt : option Q)
  : Result (game_view * list Event) :=
  if focus_entity self then
    let entity_to_focus := entity_to_focus self in
    gw ← the_gameworld (view_base self) w;
    entity ← match entity_to_focus with
             | Some i => entities_getitem gw i
             | None => Raise KeyError
             end;
    component ← entity_getitem entity (focus_position_info_from self);
    position_data ← getitem_key component "position";
    let camera_pos := camera_pos self in
    let size := size self in
    p0 ← getitem_num position_data 0%nat;
    let dist_x := - camera_pos.1 - p0 + size.1 * (1 # 2) in
    p1 ← getitem_num position_data 1%nat;
    let dist_y := - camera_pos.2 - p1 + size.2 * (1 # 2) in
    guard ← self_lock_scroll;
    '(dist_x, dist_y) ←
      (if (guard : bool) then lock_scroll self w dist_x dist_y else Ok (dist_x, dist_y));
    if Qle_bool 1 (Qabs dist_x + Qabs dist_y) then
      camera_pos_iadd dist_x dist_y self w
    else Ok (self, [])
  else Ok (self, []).

Definition on_size (self : game_view) (w : game_world)
  : Result (game_view * list Event) :=
  guard ← self_lock_scroll;
  has_map ← (if (guard : bool) then currentmap_truthy self w else Ok false);
  if (has_map : bool) then
    '(dist_x, dist_y) ← lock_scroll self w 0 0;
    camera_pos_iadd dist_x dist_y self w
  else Ok (self, []).

Definition on_touch_move (self : game_view) (touch : motion_event)
    (w : game_world) : Result (game_view * list Event) :=
  if do_scroll self then
    let dist_x := dx touch in
    let dist_y := dy touch in
    if Qgt_bool (Qabs dist_x + Qabs dist_y) 2 then
      guard ← self_lock_scroll;
      has_map ← (if (guard : bool) then currentmap_truthy self w else Ok false);
      '(dist_x, dist_y) ←
        (if (has_map : bool) then lock_scroll self w dist_x dist_y else Ok (dist_x, dist_y));
      '(self, t) ← camera_pos_iadd dist_x dist_y self w;
      Ok (self, Printed "doing scroll" :: t)
    else Ok (self, [Printed "doing scroll"])
  else Ok (self, []).

End GameView.

(** ** An instance attribute named [lock_scroll]

    The class binds [lock_scroll] to a plain function, which is not a data
    descriptor: the assignment [view.lock_scroll = v] stores [v] in the
    dictionary of the instance, and from then on [self.lock_scroll] is [v]
    and not the method.  [entry] is that entry of the instance dictionary,
    [None] while nothing has been assigned. *)

Module Shadowing.
Import GameView.

Local Open Scope Q_scope.

Inductive attribute :=
  | BoundMethod
  | InstanceValue (v : PyVal).

(** [self.lock_scroll]: a property of the class (a data descriptor) comes
    first, then the entry of the instance, then the function of the
    class. *)
Definition getattr_lock_scroll (entry : option PyVal) : Result attribute :=
  match class_lookup "lock_scroll" with
  | Some (Property default) =>
      Ok (InstanceValue (match entry with Some v => v | None => default end))
  | Some Function =>
      Ok (match entry with Some v => InstanceValue v | None => BoundMethod end)
  | None =>
      match entry with
      | Some v => Ok (InstanceValue v)
      | None => Raise AttributeError
      end
  end.

(** The attribute read as a condition. *)
Definition condition (a : attribute) : bool :=
  match a with
  | BoundMethod => true
  | InstanceValue v => truthy v
  end.

(** [self.lock_scroll(distance_x, distance_y)]: none of the values a
    component or property holds is callable. *)
Definition call (a : attribute) (self : game_view) (w : game_world)
    (distance_x distance_y : Q) : Result (Q * Q) :=
  match a with
  | BoundMethod => lock_scroll self w distance_x distance_y
  | InstanceValue _ => Raise TypeError
  end.

Definition update (entry : option PyVal) (self : game_view) (w : game_world)
    (dt : option Q) : Result (game_view * list Event) :=
  if focus_entity self then
    let entity_to_focus := entity_to_focus self in
    gw ← the_gameworld (view_base self) w;
    entity ← match entity_to_focus with
             | Some i => entities_getitem gw i
             | None => Raise KeyError
             end;
    component ← entity_getitem entity (focus_position_info_from self);
    position_data ← getitem_key component "position";
    let camera_pos := camera_pos self in
    let size := size self in
    p0 ← getitem_num position_data 0%nat;
    let dist_x := - camera_pos.1 - p0 + size.1 * (1 # 2) in
    p1 ← getitem_num position_data 1%nat;
    let dist_y := - camera_pos.2 - p1 + size.2 * (1 # 2) in
    a ← getattr_lock_scroll entry;
    '(dist_x, dist_y) ←
      (if condition a then call a self w dist_x dist_y else Ok (dist_x, dist_y));
    if Qle_bool 1 (Qabs dist_x + Qabs dist_y) then
      camera_pos_iadd dist_x dist_y self w
    else Ok (self, [])
  else Ok (self, []).

Definition on_size (entry : option PyVal) (self : game_view) (w : game_world)
  : Result (game_view * list Event) :=
  a ← getattr_lock_scroll entry;
  has_map ← (if condition a then currentmap_truthy self w else Ok false);
  if (has_map : bool) then
    '(dist_x, dist_y) ← call a self w 0 0;
    camera_pos_iadd dist_x dist_y self w
  else Ok (self, []).

Definition on_touch_move (entry : option PyVal) (self : game_view)
    (touch : motion_event) (w : game_world) : Result (game_view * list Event) :=
  if do_scroll self then
    let dist_x := dx touch in
    let dist_y := dy touch in
    if Qgt_bool (Qabs dist_x + Qabs dist_y) 2 then
      a ← getattr_lock_scroll entry;
      has_map ← (if condition a then currentmap_truthy self w else Ok false);
      '(dist_x, dist_y) ←
        (if (has_map : bool) then call a self w dist_x dist_y
         else Ok (dist_x, dist_y));
      '(self, t) ← camera_pos_iadd dist_x dist_y self w;
      Ok (self, Printed "doing scroll" :: t)
    else Ok (self, [Printed "doing scroll"])
  else Ok (self, []).

End Shadowing.

(** ** The scroll clamp on binary64 floats

    [GameView.lock_scroll] as it runs when the coordinates are Python
    floats ([map_size] defaults to [(1500., 1500.)], [size*.5] is a
    float): the same two chains on IEEE-754 doubles, given the four
    vectors the method reads. *)

Module Binary64.

Local Open Scope float_scope.

Definition lock_scroll (camera_pos map_size size pos : float * float)
    (distance_x distance_y : float) : float * float :=
  let distance_x :=
    if PrimFloat.ltb pos.1 (camera_pos.1 + distance_x) then
      pos.1 - camera_pos.1
    else if PrimFloat.leb (camera_pos.1 + map_size.1 + distance_x) (pos.1 + size.1) then
      pos.1 + size.1 - camera_pos.1 - map_size.1
    else distance_x in
  let distance_y :=
    if PrimFloat.ltb pos.2 (camera_pos.2 + distance_y) then
      pos.2 - camera_pos.2
    else if PrimFloat.leb (camera_pos.2 + map_size.2 + distance_y) (pos.2 + size.2) then
      pos.2 + size.2 - camera_pos.2 - map_size.2
    else distance_y in
  (distance_x, distance_y).

End Binary64.

(** ** Calls on a system over time *)

Module Lifecycle.
Import GameSystem.

Inductive call :=
  | CreateComponent (entity_id : EntityId) (entity_component_dict : PyVal)
  | RemoveEntity (entity_id : EntityId).

Definition perform `{Hooks} (c : call) (st : game_system * game_world)
  : Result (game_system * game_world) :=
  match c with
  | CreateComponent entity_id d => create_component st.1 entity_id d st.2
  | RemoveEntity entity_id => s ← remove_entity st.1 entity_id; Ok (s, st.2)
  end.

(** Both methods raise before they write: a call that raises leaves the
    system and the world as they were. *)
Definition after `{Hooks} (c : call) (st : game_system * game_world)
  : game_system * game_world :=
  match perform c st with
  | Ok st' => st'
  | Raise _ => st
  end.

(** The states after each call of a sequence. *)
Fixpoint run `{Hooks} (calls : list call) (st : game_system * game_world)
  : list (game_system * game_world) :=
  match calls with
  | [] => []
  | c :: rest => let st' := after c st in st' :: run rest st'
  end.

(** The caller's contract: no create for an id the system already
    manages, no remove for an id it does not manage. *)
Fixpoint respects_contract `{Hooks} (calls : list call)
    (st : game_system * game_world) : Prop :=
  match calls with
  | [] => True
  | c :: rest =>
      match c with
      | CreateComponent entity_id _ => entity_id ∉ entity_ids st.1
      | RemoveEntity entity_id => entity_id ∈ entity_ids st.1
      end ∧ respects_contract rest (after c st)
  end.

End Lifecycle.

(** ** Sequences of camera mutations *)

Module CameraTrace.
Import GameView.

(** Item assignments [camera_pos[i] = value] made one after the other;
    the result lists the view after each assignment with the events of
    that assignment. *)
Fixpoint mutate_all (ms : list (nat * Q)) (self : game_view) (w : game_world)
  : Result (list (game_view * list Event)) :=
  match ms with
  | [] => Ok []
  | m :: rest =>
      r ← camera_pos_setitem m.1 m.2 self w;
      later ← mutate_all rest r.1 w;
      Ok (r :: later)
  end.

(** Whether [update(None)] reaches the system registered under [key]. *)
Definition renderable_active (w : game_world) (key : string) : bool :=
  match (list_to_map (systems w) : gmap string ObjId) !! key with
  | Some r =>
      match objects w !! r with
      | Some o => renderable (base_of o) && active (base_of o)
      | None => false
      end
  | None => false
  end.

(** The events of one run of the cascade. *)
Definition cascade_events (w : game_world) : list Event :=
  Printed "camera updating"
    :: map (fun key => UpdateCall key None)
         (filter (fun key => renderable_active w key = true) (systems w).*1).

End CameraTrace.

(** ** Well-formed worlds and sample objects *)

(** Every system of the world's dictionary is an object of the store. *)
Definition systems_ok (w : game_world) : Prop :=
  Forall (fun kr => is_Some (objects w !! kr.2)) (systems w).

(** The view is attached to the world and the world's current map is [m]. *)
Definition has_current_map (self : game_view) (w : game_world) (m : game_map) : Prop :=
  gameworld (view_base self) = Some TheWorld ∧
  ∃ o, currentmap w = Some o ∧ objects w !! o = Some (AGameMap m).

Module Sample.

Definition view_system : game_system :=
  mk_game_system "default_gameview" true false true true (Some TheWorld)
    "default_gameview" [].

Definition map_system : game_system :=
  mk_game_system "default_map" false false false true (Some TheWorld)
    "default_gameview" [].

Definition renderer_system (name : string) : game_system :=
  mk_game_system name false true false true (Some TheWorld)
    "default_gameview" [].

(** camera at (0,0), viewport at (0,0) of size (800,600) *)
Definition view : game_view :=
  mk_game_view view_system (0, 0)%Q (800, 600)%Q (0, 0)%Q false false None
    "cymunk-physics" false false.

Definition map (w h : Q) : game_map := mk_game_map map_system (w, h).

(** A world whose current map, object 1, has the given size; object 2
    is a renderable system, object 3 a second map, entity 7 has a
    position component at (400.5, 300). *)
Definition world (map_w map_h : Q) : game_world :=
  mk_game_world
    {[ 7 := {[ "cymunk-physics" :=
                 PyDict [("position", PySeq [PyNum (801 # 2); PyNum 300])] ]} ]}
    [("default_map", 1); ("renderer", 2); ("second_map", 3)]
    (Some 1)
    {[ 1 := AGameMap (map map_w map_h);
       2 := AGameSystem (renderer_system "renderer");
       3 := AGameMap (map 64 64) ]}.

(** A system attached to the world that manages the given entities. *)
Definition system_with (ids : list EntityId) : game_system :=
  set_entity_ids ids (renderer_system "renderer").

Definition focusing_view (camera : Vec2) : game_view :=
  mk_game_view view_system camera (800, 600)%Q (0, 0)%Q true true (Some 7)
    "cymunk-physics" false true.

End Sample.

(** ** The current-map invariant *)

(** The current-map slot, when set, names an active map of the store that
    is attached to the world. *)
Definition current_map_ok (w : game_world) : Prop :=
  ∀ o, currentmap w = Some o →
    ∃ m, objects w !! o = Some (AGameMap m) ∧
         active (map_base m) = true ∧ gameworld (map_base m) = Some TheWorld.

(** ** The build script of the maps module ([modules/maps/setup.py]) *)

Module Setup.

(** A [distutils] extension as the script builds it; [pyrex_directives]
    is [None] while the attribute has not been set. *)
Record Extension := mk_Extension {
  ext_name : string;
  ext_files : list string;
  include_dirs : list string;
  extra_compile_args : list string;
  libraries : list string;
  pyrex_directives : option (list (string * bool))
}.

Definition cstdarg (platform : string) : string :=
  if decide (platform = "win32") then "-std=gnu99" else "-std=c99".

Definition platform_libraries (platform : string) : list string :=
  if decide (platform = "win32") then ["opengl32"; "glu32"; "glew32"] else [].

Definition do_clear_existing : bool := true.

(** A dictionary of modules is the list of its items in iteration order. *)
Definition particles_modules : list (string * list string) :=
  [ ("kivent_maps.map_data", ["kivent_maps/map_data.pyx"]);
    ("kivent_maps.map_system", ["kivent_maps/map_system.pyx"]);
    ("kivent_maps.map_manager", ["kivent_maps/map_manager.pyx"]) ].

Definition particles_modules_c : list (string * list string) :=
  [ ("kivent_maps.map_data", ["kivent_maps/map_data.c"]);
    ("kivent_maps.map_system", ["kivent_maps/map_system.c"]);
    ("kivent_maps.map_manager", ["kivent_maps/map_manager.c"]) ].

Definition check_for_removal : list string :=
  [ "kivent_maps/map_data.c";
    "kivent_maps/map_system.c";
    "kivent_maps/map_manager.c" ].

Definition build_ext (platform : string) (name : string) (files : list string)
    (includes : list string) : Extension :=
  mk_Extension name files includes [cstdarg platform; "-ffast-math"]
    (platform_libraries platform) None.

Definition set_pyrex_directives (d : list (string * bool)) (e : Extension)
  : Extension :=
  mk_Extension (ext_name e) (ext_files e) (include_dirs e) (extra_compile_args e)
    (libraries e) (Some d).

(** One round of the loop: build the extension of a module, mark it when
    the documentation build is running, append it. *)
Definition add_module (platform : string) (environ : gmap string string)
    (kivy_includes : list string) (ext_list : list Extension)
    (module : string * list string) : list Extension :=
  let ext := build_ext platform module.1 module.2 kivy_includes in
  let ext :=
    if decide (environ !! "READTHEDOCS" = Some "True")
    then set_pyrex_directives [("embedsignature", true)] ext
    else ext in
  (ext_list ++ [ext])%list.

Definition build_extensions_for_modules (platform : string)
    (environ : gmap string string) (kivy_includes : list string)
    (ext_list : list Extension) (modules : list (string * list string))
  : list Extension :=
  foldl (add_module platform environ kivy_includes) ext_list modules.

Definition build_extensions_for_modules_cython
    (cythonize : list Extension → list Extension) (platform : string)
    (environ : gmap string string) (kivy_includes : list string)
    (ext_list : list Extension) (modules : list (string * list string))
  : list Extension :=
  cythonize (foldl (add_module platform environ kivy_includes) ext_list modules).

(** [if isfile(file_name): remove(file_name)] over [check_for_removal]; the
    file system is the set of paths that are files. *)
Definition clear_existing (files : list string) (fs : gset string) : gset string :=
  foldl (fun fs file_name =>
           if decide (file_name ∈ fs) then fs ∖ {[file_name]} else fs)
        fs files.

(** The module-level code between the definitions and the call of
    [setup]: the file system it leaves and the extensions it passes on. *)
Definition script (cythonize : list Extension → list Extension)
    (have_cython : bool) (platform : string) (environ : gmap string string)
    (kivy_includes : list string) (fs : gset string)
  : gset string * list Extension :=
  if have_cython then
    let fs := if do_clear_existing then clear_existing check_for_removal fs else fs in
    (fs, build_extensions_for_modules_cython cythonize platform environ
           kivy_includes [] particles_modules)
  else
    (fs, build_extensions_for_modules platform environ kivy_includes []
           particles_modules_c).

End Setup.

(** * Properties *)

(** ** Comparisons *)

Lemma Qgt_bool_true a b : Qgt_bool a b = true <-> (b < a)%Q.
Proof.
  unfold Qgt_bool. rewrite negb_true_iff.
  destruct (Qle_bool a b) eqn:E.
  - apply Qle_bool_iff in E. split; [discriminate | intros; lra].
  - split; [intros _ | reflexivity].
    apply Qnot_le_lt. intros H. apply Qle_bool_iff in H. congruence.
Qed.

Lemma Qgt_bool_false a b : Qgt_bool a b = false <-> (a <= b)%Q.
Proof. unfold Qgt_bool. rewrite negb_false_iff. apply Qle_bool_iff. Qed.

Lemma Qle_bool_false a b : Qle_bool a b = false <-> (b < a)%Q.
Proof.
  rewrite <- (Qgt_bool_true a b). unfold Qgt_bool.
  destruct (Qle_bool a b); simpl; split; congruence.
Qed.

(** ** The scroll clamp *)

Section LockScroll.
Import GameView.
Local Open Scope Q_scope.

Variables (self : game_view) (w : game_world) (m : game_map).
Hypothesis Hmap : has_current_map self w m.

Lemma currentmap_map_size_ok : currentmap_map_size self w = Ok (map_size m).
Proof using Hmap.
  destruct Hmap as [Hgw (o & Hc & Ho)].
  unfold currentmap_map_size, the_gameworld. rewrite Hgw. simpl.
  rewrite Hc, Ho. reflexivity.
Qed.

(** [lock_scroll] treats the two axes separately. *)
Lemma lock_scroll_axes distance_x distance_y :
  lock_scroll self w distance_x distance_y =
    Ok (clamp_axis (camera_pos self).1 (map_size m).1 (pos self).1 (size self).1
          distance_x,
        clamp_axis (camera_pos self).2 (map_size m).2 (pos self).2 (size self).2
          distance_y).
Proof using Hmap.
  unfold lock_scroll. rewrite currentmap_map_size_ok. reflexivity.
Qed.

(** C4: when both branch conditions hold on an axis (a map smaller than
    the viewport), the first branch decides: the clamped delta on that
    axis is [pos - camera_pos], whatever happens on the other axis. *)
Theorem lock_scroll_first_branch_wins distance_x distance_y :
  ((pos self).1 < (camera_pos self).1 + distance_x →
   (camera_pos self).1 + (map_size m).1 + distance_x <= (pos self).1 + (size self).1 →
   ∃ dy', lock_scroll self w distance_x distance_y
          = Ok ((pos self).1 - (camera_pos self).1, dy'))
  ∧
  ((pos self).2 < (camera_pos self).2 + distance_y →
   (camera_pos self).2 + (map_size m).2 + distance_y <= (pos self).2 + (size self).2 →
   ∃ dx', lock_scroll self w distance_x distance_y
          = Ok (dx', (pos self).2 - (camera_pos self).2)).
Proof using Hmap.
  rewrite lock_scroll_axes. split; intros Hfirst _.
  - eexists. f_equal. f_equal. unfold clamp_axis.
    apply Qgt_bool_true in Hfirst. rewrite Hfirst. reflexivity.
  - eexists. f_equal. f_equal. unfold clamp_axis.
    apply Qgt_bool_true in Hfirst. rewrite Hfirst. reflexivity.
Qed.


End LockScroll.


Section LockScrollSamples.
Import GameView.
Local Open Scope Q_scope.

Lemma sample_has_current_map camera map_w map_h :
  has_current_map (set_camera_pos camera Sample.view) (Sample.world map_w map_h)
    (Sample.map map_w map_h).
Proof. split; [reflexivity |]. exists 1%nat. split; reflexivity. Qed.

(** C1, as stated, fails: with camera (0,0), viewport (0,0) of size
    (800,600) and a map of (1500,1500), [lock_scroll(-50, 0)] does not
    return an x delta equal to 0. *)
Lemma lock_scroll_minus_50_not_clamped :
  ¬ ∃ r, lock_scroll Sample.view (Sample.world 1500 1500) (-50) 0 = Ok r ∧ r.1 == 0.
Proof.
  intros (r & Hr & Hzero). vm_compute in Hr.
  injection Hr as <-. vm_compute in Hzero. discriminate.
Qed.

(** C1, amended: for that viewport and map [lock_scroll(-50, 0)] returns
    the delta as it is, (-50, 0); the delta that is clamped to 0 is the
    opposite one: [lock_scroll(50, 0)] returns (0, 0). *)
Theorem lock_scroll_sample_deltas :
  lock_scroll Sample.view (Sample.world 1500 1500) (-50) 0 = Ok (-50, 0) ∧
  lock_scroll Sample.view (Sample.world 1500 1500) 50 0 = Ok (0, 0).
Proof. split; vm_compute; reflexivity. Qed.

Lemma lock_scroll_first_branch_wins_witness :
  (∃ dy', lock_scroll Sample.view (Sample.world 100 100) 10 20 = Ok (0 - 0, dy')) ∧
  (∃ dx', lock_scroll Sample.view (Sample.world 100 100) 10 20 = Ok (dx', 0 - 0)).
Proof.
  destruct (lock_scroll_first_branch_wins Sample.view (Sample.world 100 100)
              (Sample.map 100 100) (sample_has_current_map (0, 0) 100 100) 10 20)
    as [Hx Hy].
  split; [apply Hx | apply Hy]; simpl; lra.
Defined.


End LockScrollSamples.

(** ** The zero delta on the boundary, on binary64 floats *)

Section Binary64Facts.
Local Open Scope float_scope.
Set Warnings "-inexact-float".


(** On floats too, a camera for which the code's two tests on an axis are
    false gets the zero delta back. *)
Lemma binary64_lock_scroll_zero (camera_pos map_size size pos : float * float) :
  PrimFloat.ltb pos.1 (camera_pos.1 + 0) = false →
  PrimFloat.leb (camera_pos.1 + map_size.1 + 0) (pos.1 + size.1) = false →
  PrimFloat.ltb pos.2 (camera_pos.2 + 0) = false →
  PrimFloat.leb (camera_pos.2 + map_size.2 + 0) (pos.2 + size.2) = false →
  Binary64.lock_scroll camera_pos map_size size pos 0 0 = (0, 0).
Proof.
  intros Hx1 Hx2 Hy1 Hy2. unfold Binary64.lock_scroll.
  rewrite Hx1, Hx2, Hy1, Hy2. reflexivity.
Qed.

Set Warnings "inexact-float".
End Binary64Facts.

(** ** The game view: cascade, focus-follow update, handlers *)

Section Cascade.
Import GameView CameraTrace.

Variable w : game_world.
Hypothesis Hsys : systems_ok w.

Lemma systems_lookup_ok key :
  key ∈ (systems w).*1 →
  ∃ r o, (list_to_map (systems w) : gmap string ObjId) !! key = Some r
         ∧ objects w !! r = Some o.
Proof using Hsys.
  intros Hin.
  destruct ((list_to_map (systems w) : gmap string ObjId) !! key) as [r|] eqn:E.
  - apply elem_of_list_to_map_2 in E.
    unfold systems_ok in Hsys. rewrite Forall_forall in Hsys.
    destruct (Hsys _ E) as [o Ho]. eauto.
  - apply not_elem_of_list_to_map_2 in E. contradiction.
Qed.

Lemma cascade_keys keys :
  (∀ key, key ∈ keys → key ∈ (systems w).*1) →
  cascade keys w =
    Ok (map (fun key => UpdateCall key None)
          (filter (fun key => renderable_active w key = true) keys)).
Proof using Hsys.
  induction keys as [|key rest IH]; intros Hsub; [reflexivity |].
  destruct (systems_lookup_ok key) as (r & o & Hr & Ho).
  { apply Hsub. left. }
  cbn [cascade]. rewrite Hr, Ho. cbn [mbind Result_bind].
  rewrite IH by (intros k Hk; apply Hsub; right; exact Hk).
  cbn [mbind Result_bind]. f_equal.
  assert (Hra : renderable_active w key
                = renderable (base_of o) && active (base_of o))
    by (unfold renderable_active; rewrite Hr, Ho; reflexivity).
  rewrite filter_cons, Hra.
  destruct (renderable (base_of o) && active (base_of o));
    case_decide; simpl; congruence.
Qed.

(** What one notification of [on_camera_pos] does. *)
Lemma on_camera_pos_spec (self : game_view) :
  gameworld (view_base self) = Some TheWorld →
  on_camera_pos self w =
    Ok (if force_camera_update self then
          if has_camera_updated self
          then (set_has_camera_updated false self, [])
          else (set_has_camera_updated true self, cascade_events w)
        else (self, [])).
Proof using Hsys.
  intros Hgw. unfold on_camera_pos, the_gameworld. rewrite Hgw.
  destruct (force_camera_update self); [| reflexivity].
  destruct (has_camera_updated self); [reflexivity |].
  cbn [negb mbind Result_bind]. rewrite cascade_keys by auto. reflexivity.
Qed.

Lemma on_camera_pos_frame (self self' : game_view) events :
  on_camera_pos self w = Ok (self', events) →
  camera_pos self' = camera_pos self ∧ view_base self' = view_base self ∧
  size self' = size self ∧ pos self' = pos self ∧
  force_camera_update self' = force_camera_update self.
Proof.
  unfold on_camera_pos. intros H.
  destruct (force_camera_update self) eqn:Ef.
  - destruct (has_camera_updated self); cbn [negb] in H.
    + injection H as <- _. cbn. auto.
    + destruct (the_gameworld (view_base self) w) as [gw|]; [| discriminate].
      cbn [mbind Result_bind] in H.
      destruct (cascade (systems gw).*1 gw); [| discriminate].
      cbn [mbind Result_bind] in H. injection H as <- _. cbn. auto.
  - injection H as <- _. auto.
Qed.

(** [camera_pos[0] += dist_x; camera_pos[1] += dist_y] moves the camera by
    the delta, whatever the two notifications do. *)
Lemma camera_pos_iadd_spec (self : game_view) dist_x dist_y :
  gameworld (view_base self) = Some TheWorld →
  ∃ self' events,
    camera_pos_iadd dist_x dist_y self w = Ok (self', events) ∧
    camera_pos self' = ((camera_pos self).1 + dist_x, (camera_pos self).2 + dist_y)%Q.
Proof using Hsys.
  intros Hgw. unfold camera_pos_iadd, camera_pos_setitem.
  rewrite on_camera_pos_spec by exact Hgw.
  set (r0 := if force_camera_update _ then _ else _).
  assert (H0 : on_camera_pos
                 (set_camera_pos ((camera_pos self).1 + dist_x, (camera_pos self).2)%Q self) w
               = Ok r0) by (apply on_camera_pos_spec; exact Hgw).
  destruct r0 as [s0 t0]. apply on_camera_pos_frame in H0.
  destruct H0 as (Hc0 & Hb0 & _). cbn in Hc0, Hb0.
  cbn [mbind Result_bind].
  rewrite on_camera_pos_spec by (cbn; rewrite Hb0; exact Hgw).
  set (r1 := if force_camera_update _ then _ else _).
  assert (H1 : on_camera_pos
                 (set_camera_pos ((camera_pos s0).1, (camera_pos s0).2 + dist_y)%Q s0) w
               = Ok r1) by (apply on_camera_pos_spec; cbn; rewrite Hb0; exact Hgw).
  destruct r1 as [s1 t1]. apply on_camera_pos_frame in H1.
  destruct H1 as (Hc1 & _). cbn in Hc1.
  cbn [mbind Result_bind]. eexists _, _. split; [reflexivity |].
  rewrite Hc1, Hc0. reflexivity.
Qed.

End Cascade.

Section FocusFollow.
Import GameView.
Local Open Scope Q_scope.

Variables (self : game_view) (w : game_world) (dt : option Q).
Variables (i : EntityId) (entity : gmap string PyVal).
Variables (component position_data : PyVal) (p0 p1 : Q).

Hypothesis Hfocus : focus_entity self = true.
Hypothesis Hgw : gameworld (view_base self) = Some TheWorld.
Hypothesis Hid : entity_to_focus self = Some i.
Hypothesis Hentity : entities w !! i = Some entity.
Hypothesis Hcomponent : entity !! focus_position_info_from self = Some component.
Hypothesis Hposition : getitem_key component "position" = Ok position_data.
Hypothesis Hp0 : getitem_num position_data 0 = Ok p0.
Hypothesis Hp1 : getitem_num position_data 1 = Ok p1.

(** A focus-follow update always clamps its delta and then applies the
    dead-zone test to the clamped delta. *)
Lemma update_focus :
  update self w dt =
    d ← lock_scroll self w
          (- (camera_pos self).1 - p0 + (size self).1 * (1 # 2))
          (- (camera_pos self).2 - p1 + (size self).2 * (1 # 2));
    if Qle_bool 1 (Qabs d.1 + Qabs d.2)
    then camera_pos_iadd d.1 d.2 self w
    else Ok (self, []).
Proof using Hfocus Hgw Hid Hentity Hcomponent Hposition Hp0 Hp1.
  unfold update. rewrite Hfocus, Hid. unfold the_gameworld. rewrite Hgw.
  cbn [mbind Result_bind]. unfold entities_getitem. rewrite Hentity.
  cbn [mbind Result_bind]. unfold entity_getitem. rewrite Hcomponent.
  cbn [mbind Result_bind]. rewrite Hposition.
  cbn [mbind Result_bind]. rewrite Hp0.
  cbn [mbind Result_bind]. rewrite Hp1.
  cbn [mbind Result_bind].
  change self_lock_scroll with (Ok true).
  cbn [mbind Result_bind].
  destruct (lock_scroll self w _ _) as [[dx' dy']|e]; reflexivity.
Qed.

(** C6: in a focus-follow update the delta
    [-camera_pos - position + size*.5], clamped to [dist], is added to
    [camera_pos] when [|dist.x| + |dist.y| >= 1] and [camera_pos] is left
    as it is when the sum is below 1. *)
Theorem update_dead_zone (m : game_map) :
  has_current_map self w m →
  systems_ok w →
  ∃ dist self' events,
    lock_scroll self w
      (- (camera_pos self).1 - p0 + (size self).1 * (1 # 2))
      (- (camera_pos self).2 - p1 + (size self).2 * (1 # 2)) = Ok dist ∧
    update self w dt = Ok (self', events) ∧
    (Qabs dist.1 + Qabs dist.2 < 1 → camera_pos self' = camera_pos self) ∧
    (1 <= Qabs dist.1 + Qabs dist.2 →
     camera_pos self' = ((camera_pos self).1 + dist.1, (camera_pos self).2 + dist.2)).
Proof using Hfocus Hgw Hid Hentity Hcomponent Hposition Hp0 Hp1.
  intros Hmap Hsys. rewrite update_focus.
  rewrite (lock_scroll_axes self w m Hmap).
  set (d := (_, _)). cbn [mbind Result_bind].
  destruct (Qle_bool 1 (Qabs d.1 + Qabs d.2)) eqn:E.
  - destruct (camera_pos_iadd_spec w Hsys self d.1 d.2 Hgw) as (s' & ev & Hrun & Hcam).
    exists d, s', ev. apply Qle_bool_iff in E.
    split; [reflexivity |]. split; [exact Hrun |].
    split; [intros Hlt; lra | intros _; exact Hcam].
  - exists d, self, []. apply Qle_bool_false in E.
    split; [reflexivity |]. split; [reflexivity |].
    split; [reflexivity | intros Hge; lra].
Qed.

End FocusFollow.

Section Handlers.
Import GameView.
Local Open Scope Q_scope.

Lemma bind_pair_eta {A} (r : Result (Q * Q)) (k : Q → Q → Result A) :
  ('(a, b) ← r; k a b) = (d ← r; k d.1 d.2).
Proof. destruct r as [[a b]|e]; reflexivity. Qed.

Lemma on_size_clamps (self : game_view) (w : game_world) :
  gameworld (view_base self) = Some TheWorld →
  is_Some (currentmap w) →
  on_size self w = d ← lock_scroll self w 0 0; camera_pos_iadd d.1 d.2 self w.
Proof.
  intros Hgw [o Ho]. unfold on_size.
  change self_lock_scroll with (Ok true). cbn [mbind Result_bind].
  unfold currentmap_truthy, the_gameworld. rewrite Hgw.
  cbn [mbind Result_bind]. rewrite Ho.
  destruct (lock_scroll self w 0 0) as [[a b]|e]; reflexivity.
Qed.

Lemma on_touch_move_clamps (self : game_view) (touch : motion_event) (w : game_world) :
  do_scroll self = true →
  2 < Qabs (dx touch) + Qabs (dy touch) →
  gameworld (view_base self) = Some TheWorld →
  is_Some (currentmap w) →
  on_touch_move self touch w =
    d ← lock_scroll self w (dx touch) (dy touch);
    r ← camera_pos_iadd d.1 d.2 self w;
    Ok (r.1, Printed "doing scroll" :: r.2).
Proof.
  intros Hscroll Hbig Hgw [o Ho]. unfold on_touch_move. rewrite Hscroll.
  apply Qgt_bool_true in Hbig. rewrite Hbig.
  change self_lock_scroll with (Ok true). cbn [mbind Result_bind].
  unfold currentmap_truthy, the_gameworld. rewrite Hgw.
  cbn [mbind Result_bind]. rewrite Ho.
  destruct (lock_scroll self w (dx touch) (dy touch)) as [[a b]|e]; [| reflexivity].
  cbn [mbind Result_bind fst snd].
  destruct (camera_pos_iadd a b self w) as [[s t]|e]; reflexivity.
Qed.

(** The methods of [GameView] are those of a view whose instance has no
    entry [lock_scroll]. *)
Lemma unshadowed_methods :
  (∀ self w dt, Shadowing.update None self w dt = update self w dt) ∧
  (∀ self w, Shadowing.on_size None self w = on_size self w) ∧
  (∀ self touch w, Shadowing.on_touch_move None self touch w = on_touch_move self touch w).
Proof.
  unfold Shadowing.update, Shadowing.on_size, Shadowing.on_touch_move,
    update, on_size, on_touch_move.
  change (Shadowing.getattr_lock_scroll None) with (Ok Shadowing.BoundMethod).
  change self_lock_scroll with (Ok true).
  split; [| split]; intros; reflexivity.
Qed.

Lemma shadowed_by_false :
  Shadowing.getattr_lock_scroll (Some (PyBool false))
    = Ok (Shadowing.InstanceValue (PyBool false)).
Proof. vm_compute. reflexivity. Qed.

(** C2, as stated, fails: after [view.lock_scroll = False] the guard is
    false.  With a current map present, a drag of (50, 0) from the camera
    (0, 0) moves the camera to (50, 0), although [lock_scroll(50, 0)]
    would have clamped the delta to (0, 0). *)
Lemma lock_scroll_disabled_by_instance_attribute :
  (∃ s' events,
      Shadowing.on_touch_move (Some (PyBool false)) (Sample.focusing_view (0, 0))
        (mk_motion_event 50 0) (Sample.world 1500 1500) = Ok (s', events)
      ∧ camera_pos s' = (50, 0)) ∧
  lock_scroll (Sample.focusing_view (0, 0)) (Sample.world 1500 1500) 50 0 = Ok (0, 0).
Proof.
  split; [| vm_compute; reflexivity].
  eexists _, _. split; vm_compute; reflexivity.
Qed.

(** C2, amended: in the body of [GameView] the name [lock_scroll] is first
    bound to a boolean property with default [True] and later rebound to
    the method, so no property of that name exists.  On a view whose
    instance has no attribute [lock_scroll] of its own, [self.lock_scroll]
    is the bound method and true as a condition: every focus-follow update
    passes its delta through [lock_scroll] (and raises when the world has
    no current map), and so do [on_size] and a drag beyond the threshold
    whenever a current map is present.  After [view.lock_scroll = False]
    the guard is false: the update applies the unclamped delta, [on_size]
    does nothing and a drag beyond the threshold is applied as it is. *)
Theorem lock_scroll_guard_unless_shadowed :
  (∃ before after,
      GameView_body = (before ++ ("lock_scroll", Property (PyBool true)) :: after)%list
      ∧ ("lock_scroll", Function) ∈ after) ∧
  class_lookup "lock_scroll" = Some Function ∧
  Shadowing.getattr_lock_scroll None = Ok Shadowing.BoundMethod ∧
  Shadowing.getattr_lock_scroll (Some (PyBool false))
    = Ok (Shadowing.InstanceValue (PyBool false)) ∧
  (∀ self w dt i entity component position_data p0 p1,
      focus_entity self = true →
      gameworld (view_base self) = Some TheWorld →
      entity_to_focus self = Some i →
      entities w !! i = Some entity →
      entity !! focus_position_info_from self = Some component →
      getitem_key component "position" = Ok position_data →
      getitem_num position_data 0 = Ok p0 →
      getitem_num position_data 1 = Ok p1 →
      Shadowing.update None self w dt =
        (d ← lock_scroll self w
               (- (camera_pos self).1 - p0 + (size self).1 * (1 # 2))
               (- (camera_pos self).2 - p1 + (size self).2 * (1 # 2));
         if Qle_bool 1 (Qabs d.1 + Qabs d.2)
         then camera_pos_iadd d.1 d.2 self w
         else Ok (self, []))
      ∧ (currentmap w = None → Shadowing.update None self w dt = Raise AttributeError)
      ∧ Shadowing.update (Some (PyBool false)) self w dt =
          (if Qle_bool 1
                (Qabs (- (camera_pos self).1 - p0 + (size self).1 * (1 # 2)) +
                 Qabs (- (camera_pos self).2 - p1 + (size self).2 * (1 # 2)))
           then camera_pos_iadd
                  (- (camera_pos self).1 - p0 + (size self).1 * (1 # 2))
                  (- (camera_pos self).2 - p1 + (size self).2 * (1 # 2)) self w
           else Ok (self, []))) ∧
  (∀ self w,
      (gameworld (view_base self) = Some TheWorld →
       is_Some (currentmap w) →
       Shadowing.on_size None self w =
         d ← lock_scroll self w 0 0; camera_pos_iadd d.1 d.2 self w)
      ∧ Shadowing.on_size (Some (PyBool false)) self w = Ok (self, [])) ∧
  (∀ self touch w,
      do_scroll self = true →
      2 < Qabs (dx touch) + Qabs (dy touch) →
      (gameworld (view_base self) = Some TheWorld →
       is_Some (currentmap w) →
       Shadowing.on_touch_move None self touch w =
         d ← lock_scroll self w (dx touch) (dy touch);
         r ← camera_pos_iadd d.1 d.2 self w;
         Ok (r.1, Printed "doing scroll" :: r.2))
      ∧ Shadowing.on_touch_move (Some (PyBool false)) self touch w =
          (r ← camera_pos_iadd (dx touch) (dy touch) self w;
           Ok (r.1, Printed "doing scroll" :: r.2))).
Proof.
  destruct unshadowed_methods as (Hupdate & Hsize & Htouch).
  split.
  { exists [("system_id", Property (PyStr "default_gameview"))]. eexists.
    split; [reflexivity |]. set_solver. }
  split; [vm_compute; reflexivity |].
  split; [vm_compute; reflexivity |].
  split; [exact shadowed_by_false |].
  split; [| split].
  - intros self w dt i entity component position_data p0 p1
      Hfocus Hgw Hid Hentity Hcomponent Hposition Hp0 Hp1.
    pose proof (update_focus self w dt i entity component position_data p0 p1
                  Hfocus Hgw Hid Hentity Hcomponent Hposition Hp0 Hp1) as Hupd.
    rewrite Hupdate. split; [exact Hupd |]. split.
    + intros Hnone. rewrite Hupd.
      unfold lock_scroll, currentmap_map_size, the_gameworld.
      rewrite Hgw. cbn [mbind Result_bind]. rewrite Hnone. reflexivity.
    + unfold Shadowing.update. rewrite Hfocus, Hid. unfold the_gameworld.
      rewrite Hgw. cbn [mbind Result_bind]. unfold entities_getitem.
      rewrite Hentity. cbn [mbind Result_bind]. unfold entity_getitem.
      rewrite Hcomponent. cbn [mbind Result_bind]. rewrite Hposition.
      cbn [mbind Result_bind]. rewrite Hp0. cbn [mbind Result_bind].
      rewrite Hp1. cbn [mbind Result_bind]. rewrite shadowed_by_false.
      reflexivity.
  - intros self w. split.
    + intros Hgw Hmap. rewrite Hsize. apply on_size_clamps; assumption.
    + unfold Shadowing.on_size. rewrite shadowed_by_false. reflexivity.
  - intros self touch w Hscroll Hbig. split.
    + intros Hgw Hmap. rewrite Htouch. apply on_touch_move_clamps; assumption.
    + unfold Shadowing.on_touch_move. rewrite Hscroll.
      apply Qgt_bool_true in Hbig. rewrite Hbig. rewrite shadowed_by_false.
      cbn [mbind Result_bind Shadowing.condition truthy].
      destruct (camera_pos_iadd (dx touch) (dy touch) self w) as [[s t]|e];
        reflexivity.
Qed.

Lemma lock_scroll_guard_unless_shadowed_witness :
  Shadowing.on_touch_move (Some (PyBool false)) (Sample.focusing_view (0, 0))
    (mk_motion_event 50 0) (Sample.world 1500 1500) =
    (r ← camera_pos_iadd 50 0 (Sample.focusing_view (0, 0)) (Sample.world 1500 1500);
     Ok (r.1, Printed "doing scroll" :: r.2)) ∧
  Shadowing.on_touch_move None (Sample.focusing_view (0, 0))
    (mk_motion_event 50 0) (Sample.world 1500 1500) =
    (d ← lock_scroll (Sample.focusing_view (0, 0)) (Sample.world 1500 1500) 50 0;
     r ← camera_pos_iadd d.1 d.2 (Sample.focusing_view (0, 0)) (Sample.world 1500 1500);
     Ok (r.1, Printed "doing scroll" :: r.2)).
Proof.
  destruct lock_scroll_guard_unless_shadowed as (_ & _ & _ & _ & _ & _ & Hdrag).
  destruct (Hdrag (Sample.focusing_view (0, 0)) (mk_motion_event 50 0)
              (Sample.world 1500 1500)) as [Hclamped Hraw];
    [reflexivity | vm_compute; reflexivity |].
  split; [exact Hraw |]. apply Hclamped; [reflexivity |]. exists 1%nat. reflexivity.
Defined.

End Handlers.

Section GuardParity.
Import GameView CameraTrace.

Variable w : game_world.
Hypothesis Hsys : systems_ok w.

Lemma camera_pos_setitem_spec (self : game_view) (i : nat) (value : Q) :
  (i < 2)%nat →
  gameworld (view_base self) = Some TheWorld →
  force_camera_update self = true →
  ∃ st,
    camera_pos_setitem i value self w =
      Ok (st, if has_camera_updated st then cascade_events w else [])
    ∧ has_camera_updated st = negb (has_camera_updated self)
    ∧ force_camera_update st = true
    ∧ gameworld (view_base st) = Some TheWorld.
Proof using Hsys.
  intros Hi Hgw Hforce.
  assert (Hcases : i = 0%nat ∨ i = 1%nat) by lia.
  unfold camera_pos_setitem.
  destruct Hcases as [-> | ->];
    (rewrite (on_camera_pos_spec w Hsys) by exact Hgw);
    cbn [force_camera_update set_camera_pos has_camera_updated];
    rewrite Hforce;
    destruct (has_camera_updated self); eexists;
    (split; [apply f_equal, (f_equal2 pair); reflexivity |]);
    cbn; auto.
Qed.

(** The guard after each of a run of mutations, from any initial guard. *)
Lemma mutate_all_parity (ms : list (nat * Q)) : ∀ self : game_view,
  Forall (fun m => (m.1 < 2)%nat) ms →
  gameworld (view_base self) = Some TheWorld →
  force_camera_update self = true →
  ∃ steps,
    mutate_all ms self w = Ok steps ∧ length steps = length ms ∧
    ∀ k st events, steps !! k = Some (st, events) →
      has_camera_updated st = xorb (has_camera_updated self) (Nat.even k) ∧
      events = (if has_camera_updated st then cascade_events w else []).
Proof using Hsys.
  induction ms as [|m rest IH]; intros self Hidx Hgw Hforce.
  - exists []. split; [reflexivity |]. split; [reflexivity |].
    intros k st events Hk. rewrite lookup_nil in Hk. discriminate.
  - apply Forall_cons in Hidx as [Hm Hrest].
    destruct (camera_pos_setitem_spec self m.1 m.2 Hm Hgw Hforce)
      as (st0 & Hstep & Hguard & Hforce0 & Hgw0).
    destruct (IH st0 Hrest Hgw0 Hforce0) as (steps & Hrun & Hlen & Hsteps).
    eexists. cbn [mutate_all]. rewrite Hstep. cbn [mbind Result_bind fst].
    rewrite Hrun. cbn [mbind Result_bind].
    split; [reflexivity |]. split; [cbn; rewrite Hlen; reflexivity |].
    intros [|k] st events Hk.
    + cbn in Hk. injection Hk as <- <-.
      rewrite Hguard. cbn. rewrite xorb_true_r. auto.
    + cbn in Hk. destruct (Hsteps k st events Hk) as [Hg Hev].
      split; [| exact Hev].
      rewrite Hg, Hguard, Nat.even_succ, <- Nat.negb_even.
      destruct (has_camera_updated self), (Nat.even k); reflexivity.
Qed.

(** C3: with [force_camera_update] set and the guard [has_camera_updated]
    initially false, the mutations of [camera_pos] number 0, 2, 4, ... run
    the cascade ([update(None)] on every active renderable system of the
    world) and leave the guard true; the mutations number 1, 3, 5, ... run
    nothing and put the guard back to false. *)
Theorem camera_cascade_alternates (ms : list (nat * Q)) (self : game_view) :
  force_camera_update self = true →
  has_camera_updated self = false →
  gameworld (view_base self) = Some TheWorld →
  Forall (fun m => (m.1 < 2)%nat) ms →
  ∃ steps,
    mutate_all ms self w = Ok steps ∧ length steps = length ms ∧
    ∀ k st events, steps !! k = Some (st, events) →
      has_camera_updated st = Nat.even k ∧
      events = (if Nat.even k then cascade_events w else []).
Proof using Hsys.
  intros Hforce Hguard Hgw Hidx.
  destruct (mutate_all_parity ms self Hidx Hgw Hforce) as (steps & Hrun & Hlen & Hsteps).
  exists steps. split; [exact Hrun |]. split; [exact Hlen |].
  intros k st events Hk. destruct (Hsteps k st events Hk) as [Hg Hev].
  rewrite Hguard in Hg. cbn in Hg. rewrite Hev, Hg. auto.
Qed.

End GuardParity.

Lemma sample_systems_ok map_w map_h : systems_ok (Sample.world map_w map_h).
Proof. repeat constructor; eexists; reflexivity. Qed.

Lemma camera_cascade_alternates_witness :
  ∃ steps,
    CameraTrace.mutate_all [(0, 5%Q); (1, 6%Q); (0, 7%Q)]
      (Sample.focusing_view (0, 0)%Q) (Sample.world 1500 1500) = Ok steps
    ∧ length steps = 3
    ∧ ∀ k st events, steps !! k = Some (st, events) →
        has_camera_updated st = Nat.even k ∧
        events = (if Nat.even k
                  then CameraTrace.cascade_events (Sample.world 1500 1500) else []).
Proof.
  apply (camera_cascade_alternates (Sample.world 1500 1500)
           (sample_systems_ok 1500 1500)
           [(0, 5%Q); (1, 6%Q); (0, 7%Q)] (Sample.focusing_view (0, 0)%Q));
    try reflexivity.
  repeat constructor.
Defined.

Lemma focusing_has_current_map camera map_w map_h :
  has_current_map (Sample.focusing_view camera) (Sample.world map_w map_h)
    (Sample.map map_w map_h).
Proof. split; [reflexivity |]. exists 1%nat. split; reflexivity. Qed.

Lemma update_dead_zone_witness :
  ∃ dist self' events,
    GameView.lock_scroll (Sample.focusing_view (-10, -10)%Q) (Sample.world 1500 1500)
      (- (-10) - (801 # 2) + 800 * (1 # 2))%Q (- (-10) - 300 + 600 * (1 # 2))%Q
      = Ok dist ∧
    GameView.update (Sample.focusing_view (-10, -10)%Q) (Sample.world 1500 1500) None
      = Ok (self', events) ∧
    ((Qabs dist.1 + Qabs dist.2 < 1)%Q → camera_pos self' = (-10, -10)%Q) ∧
    ((1 <= Qabs dist.1 + Qabs dist.2)%Q →
     camera_pos self' = (-10 + dist.1, -10 + dist.2)%Q).
Proof.
  apply (update_dead_zone (Sample.focusing_view (-10, -10)%Q) (Sample.world 1500 1500)
           None 7%nat
           {[ "cymunk-physics" :=
                PyDict [("position", PySeq [PyNum (801 # 2); PyNum 300])] ]}
           (PyDict [("position", PySeq [PyNum (801 # 2); PyNum 300])])
           (PySeq [PyNum (801 # 2); PyNum 300]) (801 # 2)%Q 300%Q
           eq_refl eq_refl eq_refl eq_refl eq_refl eq_refl eq_refl eq_refl
           (Sample.map 1500 1500) (focusing_has_current_map _ 1500 1500)
           (sample_systems_ok 1500 1500)).
Defined.

(** ** The current-map slot *)

Section CurrentMap.

Lemma on_add_system_spec (self : ObjId) (w : game_world) (m : game_map) :
  objects w !! self = Some (AGameMap m) →
  gameworld (map_base m) = Some TheWorld →
  GameMap.on_add_system self w =
    (mk_game_world (entities w) (systems w) (Some self)
       (<[self := AGameMap (set_map_base (set_active true (map_base m)) m)]> (objects w)),
     Ok tt).
Proof.
  intros Hobj Hgw. unfold GameMap.on_add_system. rewrite Hobj.
  cbn. rewrite Hgw. reflexivity.
Qed.

Lemma on_remove_system_spec (self : ObjId) (w : game_world) (m : game_map) :
  objects w !! self = Some (AGameMap m) →
  gameworld (map_base m) = Some TheWorld →
  GameMap.on_remove_system self w =
    (mk_game_world (entities w) (systems w)
       (if decide (currentmap w = Some self) then None else currentmap w)
       (<[self := AGameMap (set_map_base (set_active false (map_base m)) m)]> (objects w)),
     Ok tt).
Proof.
  intros Hobj Hgw. unfold GameMap.on_remove_system. rewrite Hobj.
  cbn. rewrite Hgw. destruct (decide (currentmap w = Some self)); reflexivity.
Qed.

(** C7: after [on_add_system] of map [a] and then of another map [b] the
    current map is [b]; [on_remove_system] of [a] leaves it [b] (the slot
    is cleared only when it holds the map removed); [on_remove_system] of
    [b] sets it to [None].  No call raises. *)
Theorem currentmap_last_writer_wins (w : game_world) (a b : ObjId) (ma mb : game_map) :
  a ≠ b →
  objects w !! a = Some (AGameMap ma) →
  objects w !! b = Some (AGameMap mb) →
  gameworld (map_base ma) = Some TheWorld →
  gameworld (map_base mb) = Some TheWorld →
  let r1 := GameMap.on_add_system a w in
  let r2 := GameMap.on_add_system b r1.1 in
  let r3 := GameMap.on_remove_system a r2.1 in
  let r4 := GameMap.on_remove_system b r3.1 in
  (r1.2 = Ok tt ∧ r2.2 = Ok tt ∧ r3.2 = Ok tt ∧ r4.2 = Ok tt) ∧
  currentmap r1.1 = Some a ∧
  currentmap r2.1 = Some b ∧
  currentmap r3.1 = Some b ∧
  currentmap r4.1 = None.
Proof.
  intros Hne Ha Hb Hga Hgb r1 r2 r3 r4.
  assert (E1 : r1 = _) by (exact (on_add_system_spec a w ma Ha Hga)).
  assert (Hb1 : objects r1.1 !! b = Some (AGameMap mb)).
  { rewrite E1. cbn. rewrite lookup_insert_ne by exact Hne. exact Hb. }
  assert (E2 : r2 = _) by (exact (on_add_system_spec b r1.1 mb Hb1 Hgb)).
  assert (Ha2 : objects r2.1 !! a
                = Some (AGameMap (set_map_base (set_active true (map_base ma)) ma))).
  { rewrite E2. cbn. rewrite lookup_insert_ne by auto.
    rewrite E1. cbn. apply lookup_insert_eq. }
  assert (E3 : r3 = _) by (exact (on_remove_system_spec a r2.1 _ Ha2 Hga)).
  assert (Hc2 : currentmap r2.1 = Some b) by (rewrite E2; reflexivity).
  assert (Hc3 : currentmap r3.1 = Some b).
  { rewrite E3. cbn. rewrite Hc2. rewrite decide_False by congruence. reflexivity. }
  assert (Hb3 : objects r3.1 !! b
                = Some (AGameMap (set_map_base (set_active true (map_base mb)) mb))).
  { rewrite E3. cbn. rewrite lookup_insert_ne by exact Hne.
    rewrite E2. cbn. apply lookup_insert_eq. }
  assert (E4 : r4 = _) by (exact (on_remove_system_spec b r3.1 _ Hb3 Hgb)).
  split.
  { rewrite E1, E2, E3, E4. auto. }
  split; [rewrite E1; reflexivity |].
  split; [exact Hc2 |].
  split; [exact Hc3 |].
  rewrite E4. cbn. rewrite Hc3. rewrite decide_True by reflexivity. reflexivity.
Qed.

Lemma currentmap_last_writer_wins_witness :
  let w := Sample.world 1500 1500 in
  let r1 := GameMap.on_add_system 1 w in
  let r2 := GameMap.on_add_system 3 r1.1 in
  let r3 := GameMap.on_remove_system 1 r2.1 in
  let r4 := GameMap.on_remove_system 3 r3.1 in
  (r1.2 = Ok tt ∧ r2.2 = Ok tt ∧ r3.2 = Ok tt ∧ r4.2 = Ok tt) ∧
  currentmap r1.1 = Some 1 ∧
  currentmap r2.1 = Some 3 ∧
  currentmap r3.1 = Some 3 ∧
  currentmap r4.1 = None.
Proof.
  apply (currentmap_last_writer_wins (Sample.world 1500 1500) 1 3
           (Sample.map 1500 1500) (Sample.map 64 64));
    [lia | reflexivity | reflexivity | reflexivity | reflexivity].
Defined.

End CurrentMap.

(** ** Entity bookkeeping of a system *)

Section EntityIds.
Import GameSystem Lifecycle.
Local Open Scope list_scope.
Context `{hooks : Hooks}.

Lemma list_remove_absent (x : nat) (l : list nat) :
  x ∉ l → list_remove x l = Raise ValueError.
Proof.
  induction l as [|y l IH]; intros Hnot; [reflexivity |].
  apply not_elem_of_cons in Hnot as [Hne Hnot]. cbn [list_remove].
  rewrite decide_False by exact Hne. rewrite IH by exact Hnot. reflexivity.
Qed.

Lemma list_remove_present (x : nat) (l : list nat) :
  x ∈ l →
  ∃ l1 l2, l = l1 ++ (x :: l2) ∧ (x ∉ l1) ∧ list_remove x l = Ok (l1 ++ l2).
Proof.
  induction l as [|y l IH]; intros Hin; [inversion Hin |].
  cbn [list_remove]. destruct (decide (x = y)) as [<- | Hne].
  - exists [], l. split; [reflexivity |]. split; [apply not_elem_of_nil | reflexivity].
  - apply elem_of_cons in Hin as [Heq | Hin]; [contradiction |].
    destruct (IH Hin) as (l1 & l2 & -> & Hnot & Hrem).
    exists (y :: l1), l2. split; [reflexivity |].
    split; [apply not_elem_of_cons; auto |].
    rewrite Hrem. reflexivity.
Qed.

Lemma NoDup_drop_middle (x : nat) (l1 l2 : list nat) :
  NoDup (l1 ++ (x :: l2)) → NoDup (l1 ++ l2) ∧ x ∉ l1 ++ l2.
Proof.
  intros Hnd. apply NoDup_app in Hnd as (Hl1 & Hdisj & Hl2).
  apply NoDup_cons in Hl2 as [Hx2 Hl2].
  split.
  - apply NoDup_app. split; [exact Hl1 |]. split; [| exact Hl2].
    intros y Hy1 Hy2. apply (Hdisj y Hy1). right. exact Hy2.
  - intros Hin. apply elem_of_app in Hin as [Hin | Hin]; [| contradiction].
    apply (Hdisj x Hin). left.
Qed.

(** C8: [remove_entity] raises [ValueError] to its caller when the id is
    not in [entity_ids], and when the id is there it returns the system
    with the (first) entry of that id taken out of [entity_ids]; in a list
    without duplicates the id is then gone. *)
Theorem remove_entity_spec (self : game_system) (entity_id : EntityId) :
  (entity_id ∉ entity_ids self → remove_entity self entity_id = Raise ValueError) ∧
  (entity_id ∈ entity_ids self →
   ∃ l1 l2,
     entity_ids self = l1 ++ (entity_id :: l2) ∧ (entity_id ∉ l1) ∧
     remove_entity self entity_id = Ok (set_entity_ids (l1 ++ l2) self) ∧
     (NoDup (entity_ids self) → entity_id ∉ l1 ++ l2)).
Proof.
  unfold remove_entity. split.
  - intros Hnot. rewrite list_remove_absent by exact Hnot. reflexivity.
  - intros Hin. destruct (list_remove_present _ _ Hin) as (l1 & l2 & Hsplit & Hnot & Hrem).
    exists l1, l2. rewrite Hrem. split; [exact Hsplit |]. split; [exact Hnot |].
    split; [reflexivity |].
    intros Hnd. rewrite Hsplit in Hnd. apply (NoDup_drop_middle _ _ _ Hnd).
Qed.

Lemma create_component_spec (self : game_system) (w : game_world)
    (entity_id : EntityId) (entity : gmap string PyVal) (d : PyVal) :
  gameworld self = Some TheWorld →
  entities w !! entity_id = Some entity →
  create_component self entity_id d w =
    Ok (set_entity_ids (entity_ids self ++ [entity_id]) self,
        set_entities
          (<[entity_id := <[system_id self := generate_component_data self d]> entity]>
             (entities w)) w).
Proof.
  intros Hgw Hentity. unfold create_component, the_gameworld. rewrite Hgw.
  cbn [mbind Result_bind]. unfold entities_getitem. rewrite Hentity. reflexivity.
Qed.

Lemma create_component_entity_ids (self self' : game_system) (w w' : game_world)
    (entity_id : EntityId) (d : PyVal) :
  create_component self entity_id d w = Ok (self', w') →
  entity_ids self' = entity_ids self ++ [entity_id].
Proof.
  unfold create_component. intros H.
  destruct (the_gameworld self w) as [gw|]; [| discriminate].
  cbn [mbind Result_bind] in H.
  destruct (entities_getitem gw entity_id); [| discriminate].
  cbn [mbind Result_bind] in H. injection H as <- _. reflexivity.
Qed.

Lemma after_NoDup (c : call) (st : game_system * game_world) :
  NoDup (entity_ids st.1) →
  match c with
  | CreateComponent entity_id _ => entity_id ∉ entity_ids st.1
  | RemoveEntity entity_id => entity_id ∈ entity_ids st.1
  end →
  NoDup (entity_ids (after c st).1).
Proof.
  intros Hnd Hpre. unfold after, perform. destruct c as [entity_id d | entity_id].
  - destruct (create_component st.1 entity_id d st.2) as [[s' w']|e] eqn:E;
      [| exact Hnd].
    apply create_component_entity_ids in E. cbn. rewrite E.
    apply NoDup_app. split; [exact Hnd |].
    split; [| apply NoDup_singleton].
    intros y Hy Hy'. apply list_elem_of_singleton in Hy'. subst y. contradiction.
  - destruct (list_remove_present _ _ Hpre) as (l1 & l2 & Hsplit & _ & Hrem).
    unfold remove_entity. rewrite Hrem. cbn. rewrite Hsplit in Hnd.
    apply (NoDup_drop_middle _ _ _ Hnd).
Qed.

Lemma run_NoDup (calls : list call) : ∀ st : game_system * game_world,
  NoDup (entity_ids st.1) →
  respects_contract calls st →
  Forall (fun st' => NoDup (entity_ids st'.1)) (run calls st).
Proof.
  induction calls as [|c rest IH]; intros st Hnd Hok; [constructor |].
  destruct Hok as [Hpre Hrest]. cbn [run].
  pose proof (after_NoDup c st Hnd Hpre) as Hnd'.
  constructor; [exact Hnd' |]. apply IH; assumption.
Qed.

(** C9: starting from a system whose [entity_ids] has no duplicates (a
    fresh system has none), [entity_ids] has no duplicates after each call
    of a sequence of [create_component] and [remove_entity] calls in which
    no create is for an id already present and every remove is for a
    present id. *)
Theorem entity_ids_NoDup_after_each_call (calls : list call)
    (self : game_system) (w : game_world) :
  NoDup (entity_ids self) →
  respects_contract calls (self, w) →
  Forall (fun st => NoDup (entity_ids st.1)) (run calls (self, w)).
Proof.
  intros Hnd Hok. apply run_NoDup; assumption.
Qed.

(** C10: a second [create_component] for the same entity id raises nothing:
    it stores the newly transformed data as the entity's component of this
    system and appends the id to [entity_ids] once more, so the id is
    listed twice. *)
Theorem create_component_twice (self : game_system) (w : game_world)
    (entity_id : EntityId) (entity : gmap string PyVal) (d1 d2 : PyVal) :
  gameworld self = Some TheWorld →
  entities w !! entity_id = Some entity →
  ∃ s1 w1 s2 w2,
    create_component self entity_id d1 w = Ok (s1, w1) ∧
    create_component s1 entity_id d2 w1 = Ok (s2, w2) ∧
    entity_ids s2 = entity_ids self ++ [entity_id; entity_id] ∧
    (∃ e1 e2,
        entities w1 !! entity_id = Some e1 ∧
        e1 !! system_id self = Some (generate_component_data self d1) ∧
        entities w2 !! entity_id = Some e2 ∧
        e2 !! system_id self = Some (generate_component_data s1 d2)) ∧
    ¬ NoDup (entity_ids s2).
Proof.
  intros Hgw Hentity.
  eexists _, _, _, _.
  split; [apply (create_component_spec self w entity_id entity d1 Hgw Hentity) |].
  split.
  { apply create_component_spec; [exact Hgw |]. cbn. apply lookup_insert_eq. }
  split; [cbn; rewrite <- app_assoc; reflexivity |].
  split.
  { eexists _, _. cbn.
    split; [apply lookup_insert_eq |]. split; [apply lookup_insert_eq |].
    split; [apply lookup_insert_eq |]. apply lookup_insert_eq. }
  cbn. rewrite <- app_assoc. cbn. intros Hnd.
  apply NoDup_app in Hnd as (_ & _ & Hnd).
  apply NoDup_cons in Hnd as [Hnot _]. apply Hnot. left.
Qed.

End EntityIds.

Section EntityIdsSamples.
Import GameSystem Lifecycle.
Local Open Scope list_scope.

Lemma remove_entity_spec_witness :
  remove_entity (Sample.system_with [4; 7]) 5 = Raise ValueError ∧
  ∃ l1 l2,
    [4; 7] = l1 ++ (7 :: l2) ∧ (7 ∉ l1) ∧
    remove_entity (Sample.system_with [4; 7]) 7
      = Ok (set_entity_ids (l1 ++ l2) (Sample.system_with [4; 7])) ∧
    (NoDup [4; 7] → 7 ∉ l1 ++ l2).
Proof.
  split.
  - apply (remove_entity_spec (Sample.system_with [4; 7]) 5). cbn.
    rewrite !not_elem_of_cons. split; [lia |]. split; [lia | apply not_elem_of_nil].
  - apply (remove_entity_spec (Sample.system_with [4; 7]) 7). cbn.
    apply elem_of_cons. right. apply elem_of_cons. left. reflexivity.
Defined.

Lemma entity_ids_NoDup_after_each_call_witness :
  Forall (fun st => NoDup (entity_ids st.1))
    (run (H := base_hooks)
       [CreateComponent 7 (PyDict []); RemoveEntity 7; CreateComponent 7 PyNone]
       (init (Sample.system_with [4]), Sample.world 1500 1500)).
Proof.
  apply (entity_ids_NoDup_after_each_call (hooks := base_hooks)).
  - apply NoDup_nil_2.
  - cbn. repeat split; set_solver.
Defined.

Lemma create_component_twice_witness :
  ∃ s1 w1 s2 w2,
    create_component (H := base_hooks) (Sample.system_with [4]) 7 (PyNum 1)
      (Sample.world 1500 1500) = Ok (s1, w1) ∧
    create_component (H := base_hooks) s1 7 (PyNum 2) w1 = Ok (s2, w2) ∧
    entity_ids s2 = [4] ++ [7; 7] ∧
    (∃ e1 e2,
        entities w1 !! 7 = Some e1 ∧ e1 !! "renderer" = Some (PyNum 1) ∧
        entities w2 !! 7 = Some e2 ∧ e2 !! "renderer" = Some (PyNum 2)) ∧
    ¬ NoDup (entity_ids s2).
Proof.
  apply (create_component_twice (hooks := base_hooks) (Sample.system_with [4])
           (Sample.world 1500 1500) 7
           {[ "cymunk-physics" :=
                PyDict [("position", PySeq [PyNum (801 # 2); PyNum 300])] ]}
           (PyNum 1) (PyNum 2) eq_refl eq_refl).
Defined.

End EntityIdsSamples.

(** * Further properties *)

(** ** Components: save after create, create then remove, what is kept *)

Section Components.
Import GameSystem.
Local Open Scope list_scope.
Context `{hooks : Hooks}.

Lemma list_remove_Permutation (x : nat) (l l' : list nat) :
  list_remove x l = Ok l' → l ≡ₚ x :: l'.
Proof.
  revert l'. induction l as [|y l IH]; intros l' H; [discriminate |].
  cbn [list_remove] in H. destruct (decide (x = y)) as [<- | Hne].
  - injection H as <-. reflexivity.
  - destruct (list_remove x l) as [l''|e]; [| discriminate].
    cbn [mbind Result_bind] in H. injection H as <-.
    rewrite (IH l'' eq_refl). apply Permutation_swap.
Qed.

Lemma list_remove_snoc_fresh (x : nat) (l : list nat) :
  x ∉ l → list_remove x (l ++ [x]) = Ok l.
Proof.
  induction l as [|y l IH]; intros Hnot; cbn [app list_remove].
  - rewrite decide_True by reflexivity. reflexivity.
  - apply not_elem_of_cons in Hnot as [Hne Hnot].
    rewrite decide_False by exact Hne. rewrite IH by exact Hnot. reflexivity.
Qed.

(** X1: Saving right after creating returns the data the load hook produced
    (the given data itself for the base class). *)
Theorem save_component_after_create (self : game_system) (w : game_world)
    (entity_id : EntityId) (entity : gmap string PyVal) (d : PyVal) :
  gameworld self = Some TheWorld →
  entities w !! entity_id = Some entity →
  ∃ s' w',
    create_component self entity_id d w = Ok (s', w') ∧
    save_component s' entity_id w' = Ok (generate_component_data self d).
Proof.
  intros Hgw Hentity. eexists _, _.
  split; [apply (create_component_spec self w entity_id entity d Hgw Hentity) |].
  unfold save_component, generate_entity_component_dict, the_gameworld.
  cbn. rewrite Hgw. cbn [mbind Result_bind].
  unfold entities_getitem. cbn. rewrite lookup_insert_eq.
  cbn [mbind Result_bind]. unfold entity_getitem. rewrite lookup_insert_eq.
  reflexivity.
Qed.

(** X2: [create_component] followed by [remove_entity] of the same id: both
    return, [entity_ids] ends as a permutation of what it was (the very
    same list when the id was not managed before, since the first entry is
    the one removed), and the component data stays on the entity. *)
Theorem create_then_remove_entity (self : game_system) (w : game_world)
    (entity_id : EntityId) (entity : gmap string PyVal) (d : PyVal) :
  gameworld self = Some TheWorld →
  entities w !! entity_id = Some entity →
  ∃ s1 w1 s2,
    create_component self entity_id d w = Ok (s1, w1) ∧
    remove_entity s1 entity_id = Ok s2 ∧
    entity_ids s2 ≡ₚ entity_ids self ∧
    (entity_id ∉ entity_ids self → entity_ids s2 = entity_ids self) ∧
    save_component s2 entity_id w1 = Ok (generate_component_data self d).
Proof.
  intros Hgw Hentity.
  destruct (list_remove_present entity_id (entity_ids self ++ [entity_id]))
    as (l1 & l2 & Hsplit & Hnot & Hrem).
  { apply elem_of_app. right. left. }
  eexists _, _, (set_entity_ids (l1 ++ l2) self).
  split; [apply (create_component_spec self w entity_id entity d Hgw Hentity) |].
  split.
  { unfold remove_entity. cbn. rewrite Hrem. reflexivity. }
  split.
  { cbn. apply list_remove_Permutation in Hrem.
    apply (Permutation_cons_inv (a := entity_id)).
    rewrite <- Hrem. symmetry. apply Permutation_cons_append. }
  split.
  { intros Hfresh. cbn. rewrite (list_remove_snoc_fresh _ _ Hfresh) in Hrem.
    congruence. }
  unfold save_component, generate_entity_component_dict, the_gameworld.
  cbn. rewrite Hgw. cbn [mbind Result_bind].
  unfold entities_getitem. cbn. rewrite lookup_insert_eq.
  cbn [mbind Result_bind]. unfold entity_getitem. rewrite lookup_insert_eq.
  reflexivity.
Qed.

(** X3: [create_component] writes one slot only: the other entities, the other
    systems' components of the same entity, the world's systems, current
    map and objects, and every attribute of the system but [entity_ids]
    stay as they were. *)
Theorem create_component_frame (self s' : game_system) (w w' : game_world)
    (entity_id : EntityId) (d : PyVal) :
  create_component self entity_id d w = Ok (s', w') →
  (∀ j, j ≠ entity_id → entities w' !! j = entities w !! j) ∧
  (∃ e e', entities w !! entity_id = Some e ∧ entities w' !! entity_id = Some e' ∧
           ∀ k, k ≠ system_id self → e' !! k = e !! k) ∧
  systems w' = systems w ∧ currentmap w' = currentmap w ∧ objects w' = objects w ∧
  s' = set_entity_ids (entity_ids self ++ [entity_id]) self.
Proof.
  unfold create_component, the_gameworld. intros H.
  destruct (gameworld self) as [[]|]; [| discriminate].
  cbn [mbind Result_bind] in H. unfold entities_getitem in H.
  destruct (entities w !! entity_id) as [e|] eqn:He; [| discriminate].
  cbn [mbind Result_bind] in H. injection H as <- <-. cbn.
  split; [intros j Hj; apply lookup_insert_ne; congruence |].
  split; [| auto].
  eexists _, _. split; [reflexivity |]. split; [apply lookup_insert_eq |].
  intros k Hk. apply lookup_insert_ne. congruence.
Qed.

(** X4: Missing things: on a system that is not attached to a world both
    [create_component] and [save_component] raise [AttributeError]; for an
    entity the world does not have they raise [KeyError]; and
    [save_component] raises [KeyError] for an entity that has no component
    of this system. *)
Theorem component_lookup_errors (self : game_system) (w : game_world)
    (entity_id : EntityId) (d : PyVal) :
  (gameworld self = None →
   create_component self entity_id d w = Raise AttributeError ∧
   save_component self entity_id w = Raise AttributeError) ∧
  (gameworld self = Some TheWorld → entities w !! entity_id = None →
   create_component self entity_id d w = Raise KeyError ∧
   save_component self entity_id w = Raise KeyError) ∧
  (gameworld self = Some TheWorld →
   ∀ entity, entities w !! entity_id = Some entity →
     entity !! system_id self = None →
     save_component self entity_id w = Raise KeyError).
Proof.
  unfold create_component, save_component, generate_entity_component_dict,
    the_gameworld, entities_getitem, entity_getitem.
  split; [| split].
  - intros ->. auto.
  - intros -> Hentity. cbn [mbind Result_bind]. rewrite Hentity. auto.
  - intros -> entity Hentity Hnone. cbn [mbind Result_bind]. rewrite Hentity.
    cbn [mbind Result_bind]. rewrite Hnone. reflexivity.
Qed.

End Components.

Section ComponentsSamples.
Import GameSystem.
Local Open Scope list_scope.

Lemma save_component_after_create_witness :
  ∃ s' w',
    create_component (H := base_hooks) (Sample.system_with [4]) 7 (PyNum 1)
      (Sample.world 1500 1500) = Ok (s', w') ∧
    save_component s' 7 w' = Ok (PyNum 1).
Proof.
  apply (save_component_after_create (hooks := base_hooks) (Sample.system_with [4])
           (Sample.world 1500 1500) 7 _ (PyNum 1) eq_refl eq_refl).
Defined.

Lemma create_then_remove_entity_witness :
  ∃ s1 w1 s2,
    create_component (H := base_hooks) (Sample.system_with [7; 4]) 7 (PyNum 1)
      (Sample.world 1500 1500) = Ok (s1, w1) ∧
    remove_entity s1 7 = Ok s2 ∧
    entity_ids s2 ≡ₚ [7; 4] ∧
    (7 ∉ [7; 4] → entity_ids s2 = [7; 4]) ∧
    save_component s2 7 w1 = Ok (PyNum 1).
Proof.
  apply (create_then_remove_entity (hooks := base_hooks) (Sample.system_with [7; 4])
           (Sample.world 1500 1500) 7 _ (PyNum 1) eq_refl eq_refl).
Defined.

Lemma create_component_frame_witness :
  ∃ s' w',
    create_component (H := base_hooks) (Sample.system_with [4]) 7 (PyNum 1)
      (Sample.world 1500 1500) = Ok (s', w') ∧
    (∀ j, j ≠ 7 → entities w' !! j = entities (Sample.world 1500 1500) !! j) ∧
    objects w' = objects (Sample.world 1500 1500).
Proof.
  eexists _, _. split; [reflexivity |].
  destruct (create_component_frame (hooks := base_hooks) (Sample.system_with [4]) _
              (Sample.world 1500 1500) _ 7 (PyNum 1) eq_refl)
    as (Hothers & _ & _ & _ & Hobjects & _).
  split; [exact Hothers | exact Hobjects].
Defined.

Lemma component_lookup_errors_witness :
  save_component (Sample.system_with [7]) 7 (Sample.world 1500 1500) = Raise KeyError ∧
  create_component (H := base_hooks) (Sample.system_with []) 8 PyNone
    (Sample.world 1500 1500) = Raise KeyError.
Proof.
  split.
  - destruct (component_lookup_errors (hooks := base_hooks) (Sample.system_with [7])
                (Sample.world 1500 1500) 7 PyNone) as (_ & _ & Hslot).
    apply (Hslot eq_refl _ eq_refl). reflexivity.
  - destruct (component_lookup_errors (hooks := base_hooks) (Sample.system_with [])
                (Sample.world 1500 1500) 8 PyNone) as (_ & Hentity & _).
    apply (Hentity eq_refl eq_refl).
Defined.

End ComponentsSamples.

(** ** The current-map slot: invariant, detached maps, no restore *)

Section CurrentMapMore.

(** X5: Both hooks keep the invariant that the current map, when there is
    one, is an active map attached to the world. *)
Theorem current_map_stays_active (w : game_world) (self : ObjId) :
  current_map_ok w →
  current_map_ok (GameMap.on_add_system self w).1 ∧
  current_map_ok (GameMap.on_remove_system self w).1.
Proof.
  intros Hinv. unfold GameMap.on_add_system, GameMap.on_remove_system.
  destruct (objects w !! self) as [[s|m]|] eqn:Hself; [auto | | auto].
  cbn [GameSystem.on_add_system GameSystem.on_remove_system set_map_base
         map_base gameworld set_active].
  destruct (gameworld (map_base m)) as [[]|] eqn:Hgw.
  - split.
    + intros o Ho. cbn in Ho. injection Ho as <-. cbn.
      rewrite lookup_insert_eq. eexists. split; [reflexivity |]. cbn. auto.
    + cbn [set_objects currentmap].
      destruct (decide (currentmap w = Some self)) as [Hcur | Hcur].
      * intros o Ho. cbn in Ho. discriminate.
      * intros o Ho. cbn in Ho. cbn.
        rewrite lookup_insert_ne by congruence. apply Hinv. exact Ho.
  - assert (Hother : ∀ o, currentmap w = Some o → o ≠ self).
    { intros o Ho ->. destruct (Hinv self Ho) as (m0 & Hm0 & _ & Hattached).
      rewrite Hself in Hm0. injection Hm0 as <-. congruence. }
    split; intros o Ho; cbn in Ho; cbn;
      (rewrite lookup_insert_ne by (intros ->; exact (Hother o Ho eq_refl)));
      apply Hinv; exact Ho.
Qed.

Lemma current_map_stays_active_witness :
  current_map_ok (GameMap.on_add_system 3 (Sample.world 1500 1500)).1 ∧
  current_map_ok (GameMap.on_remove_system 3 (Sample.world 1500 1500)).1.
Proof.
  apply (current_map_stays_active (Sample.world 1500 1500) 3).
  intros o Ho. cbn in Ho. injection Ho as <-.
  eexists. split; [reflexivity |]. split; reflexivity.
Defined.

(** X6: A map whose [gameworld] is [None]: [on_add_system] activates it
    without touching the slot and without raising; [on_remove_system]
    raises [AttributeError], yet the map has already been deactivated. *)
Theorem detached_map_hooks (w : game_world) (self : ObjId) (m : game_map) :
  objects w !! self = Some (AGameMap m) →
  gameworld (map_base m) = None →
  ((GameMap.on_add_system self w).2 = Ok tt ∧
   currentmap (GameMap.on_add_system self w).1 = currentmap w ∧
   ∃ m', objects (GameMap.on_add_system self w).1 !! self = Some (AGameMap m') ∧
         active (map_base m') = true) ∧
  ((GameMap.on_remove_system self w).2 = Raise AttributeError ∧
   currentmap (GameMap.on_remove_system self w).1 = currentmap w ∧
   ∃ m', objects (GameMap.on_remove_system self w).1 !! self = Some (AGameMap m') ∧
         active (map_base m') = false).
Proof.
  intros Hself Hgw. unfold GameMap.on_add_system, GameMap.on_remove_system.
  rewrite Hself. cbn. rewrite Hgw. cbn.
  split; (split; [reflexivity |]); (split; [reflexivity |]);
    eexists; (split; [apply lookup_insert_eq | reflexivity]).
Qed.

(** X7: Removing the current map does not bring back the map it replaced: a
    map that is added and then removed leaves the slot empty, whatever the
    slot held before. *)
Theorem add_then_remove_leaves_no_current_map (w : game_world) (self : ObjId)
    (m : game_map) :
  objects w !! self = Some (AGameMap m) →
  gameworld (map_base m) = Some TheWorld →
  let added := GameMap.on_add_system self w in
  let removed := GameMap.on_remove_system self added.1 in
  currentmap added.1 = Some self ∧
  removed.2 = Ok tt ∧
  currentmap removed.1 = None.
Proof.
  intros Hself Hgw added removed.
  assert (Ea : added = _) by exact (on_add_system_spec self w m Hself Hgw).
  assert (Hself' : objects added.1 !! self
                   = Some (AGameMap (set_map_base (set_active true (map_base m)) m))).
  { rewrite Ea. cbn. apply lookup_insert_eq. }
  assert (Er : removed = _) by exact (on_remove_system_spec self added.1 _ Hself' Hgw).
  split; [rewrite Ea; reflexivity |].
  rewrite Er. split; [reflexivity |]. cbn.
  rewrite Ea. cbn. rewrite decide_True by reflexivity. reflexivity.
Qed.

(** X8: The hooks write the receiver only: entities, the dictionary of systems
    and every other object of the store are untouched, and the receiver
    keeps its map size and its entities. *)
Theorem map_hooks_frame (w : game_world) (self : ObjId) :
  ∀ r, r = GameMap.on_add_system self w ∨ r = GameMap.on_remove_system self w →
    entities r.1 = entities w ∧ systems r.1 = systems w ∧
    (∀ o, o ≠ self → objects r.1 !! o = objects w !! o) ∧
    (∀ m, objects w !! self = Some (AGameMap m) →
       ∃ m', objects r.1 !! self = Some (AGameMap m') ∧
             map_size m' = map_size m ∧
             entity_ids (map_base m') = entity_ids (map_base m)).
Proof.
  intros r Hr.
  unfold GameMap.on_add_system, GameMap.on_remove_system in Hr.
  destruct (objects w !! self) as [[s|m]|] eqn:Hself.
  - assert (r = (w, Raise TypeError)) as -> by (destruct Hr; assumption).
    cbn. repeat split; auto. intros m Hm. discriminate.
  - destruct Hr as [-> | ->]; cbn;
      destruct (gameworld (map_base m)) as [[]|];
      try destruct (decide (currentmap w = Some self)); cbn;
      (split; [reflexivity |]); (split; [reflexivity |]);
      (split; [intros o Ho; apply lookup_insert_ne; congruence |]);
      intros m0 Hm0; injection Hm0 as <-;
      (eexists; split; [apply lookup_insert_eq | split; reflexivity]).
  - assert (r = (w, Raise TypeError)) as -> by (destruct Hr; assumption).
    cbn. repeat split; auto. intros m Hm. discriminate.
Qed.

End CurrentMapMore.

Lemma detached_map_hooks_witness :
  let w := set_objects (<[9 := AGameMap (mk_game_map
                            (mk_game_system "m" false false false false None "v" [])
                            (10, 10)%Q)]> (objects (Sample.world 1500 1500)))
             (Sample.world 1500 1500) in
  (GameMap.on_add_system 9 w).2 = Ok tt ∧
  (GameMap.on_remove_system 9 w).2 = Raise AttributeError ∧
  currentmap (GameMap.on_remove_system 9 w).1 = Some 1.
Proof.
  intros w.
  destruct (detached_map_hooks w 9 _ eq_refl eq_refl)
    as ((Hadd & _ & _) & (Hrem & Hcur & _)).
  split; [exact Hadd |]. split; [exact Hrem | exact Hcur].
Defined.

Lemma add_then_remove_leaves_no_current_map_witness :
  let added := GameMap.on_add_system 3 (Sample.world 1500 1500) in
  let removed := GameMap.on_remove_system 3 added.1 in
  currentmap added.1 = Some 3 ∧ removed.2 = Ok tt ∧ currentmap removed.1 = None.
Proof.
  apply (add_then_remove_leaves_no_current_map (Sample.world 1500 1500) 3
           (Sample.map 64 64) eq_refl eq_refl).
Defined.

Lemma map_hooks_frame_witness :
  entities (GameMap.on_remove_system 1 (Sample.world 1500 1500)).1
    = entities (Sample.world 1500 1500) ∧
  objects (GameMap.on_remove_system 1 (Sample.world 1500 1500)).1 !! 3
    = Some (AGameMap (Sample.map 64 64)).
Proof.
  destruct (map_hooks_frame (Sample.world 1500 1500) 1
              (GameMap.on_remove_system 1 (Sample.world 1500 1500))
              (or_intror eq_refl)) as (Hent & _ & Hothers & _).
  split; [exact Hent |]. rewrite Hothers by lia. reflexivity.
Defined.

(** ** The scroll clamp without a current map *)

Section LockScrollMore.
Import GameView.
Local Open Scope Q_scope.

Variables (self : game_view) (w : game_world).

(** X11: Without a current map (or on a view that is not attached to a world)
    [lock_scroll] raises [AttributeError]. *)
Theorem lock_scroll_needs_current_map (distance_x distance_y : Q) :
  (¬ ∃ m, has_current_map self w m) →
  lock_scroll self w distance_x distance_y = Raise AttributeError.
Proof.
  intros Hnone. unfold lock_scroll, currentmap_map_size, the_gameworld.
  destruct (gameworld (view_base self)) as [[]|] eqn:Hgw; [| reflexivity].
  cbn [mbind Result_bind].
  destruct (currentmap w) as [o|] eqn:Hcur; [| reflexivity].
  destruct (objects w !! o) as [[s|m]|] eqn:Hobj; try reflexivity.
  exfalso. apply Hnone. exists m. split; [exact Hgw |]. exists o. auto.
Qed.

End LockScrollMore.

Section LockScrollMoreSamples.
Import GameView.
Local Open Scope Q_scope.

Lemma lock_scroll_needs_current_map_witness :
  lock_scroll Sample.view (set_currentmap None (Sample.world 1500 1500)) 1 1
    = Raise AttributeError.
Proof.
  apply lock_scroll_needs_current_map.
  intros (m & _ & o & Ho & _). cbn in Ho. discriminate.
Defined.

End LockScrollMoreSamples.

(** ** Camera moves: one cascade per move, errors, ignored drags *)

Section CameraMoves.
Import GameView CameraTrace.
Local Open Scope Q_scope.

Variable w : game_world.

(** The two item assignments of a move, run together. *)
Lemma camera_pos_iadd_run (self : game_view) (dist_x dist_y : Q) :
  (force_camera_update self = true →
   gameworld (view_base self) = Some TheWorld ∧ systems_ok w) →
  camera_pos_iadd dist_x dist_y self w =
    Ok (set_has_camera_updated (has_camera_updated self)
          (set_camera_pos ((camera_pos self).1 + dist_x, (camera_pos self).2 + dist_y)
             self),
        if force_camera_update self then cascade_events w else []).
Proof.
  intros Hforce. destruct self as [b c sz p ds fe etf fpi hcu f].
  cbn [force_camera_update view_base camera_pos has_camera_updated] in *.
  unfold camera_pos_iadd, camera_pos_setitem. destruct f.
  - destruct (Hforce eq_refl) as [Hgw Hsys].
    rewrite (on_camera_pos_spec w Hsys) by exact Hgw.
    cbn [force_camera_update has_camera_updated set_camera_pos].
    destruct hcu; cbn [mbind Result_bind];
      rewrite (on_camera_pos_spec w Hsys) by exact Hgw;
      cbn [force_camera_update has_camera_updated set_camera_pos
             set_has_camera_updated camera_pos view_base size pos do_scroll
             focus_entity entity_to_focus focus_position_info_from
             mbind Result_bind fst snd app].
    + reflexivity.
    + rewrite app_nil_r. reflexivity.
  - reflexivity.
Qed.

(** X12: A move of the camera, made of the two item assignments
    [camera_pos[0] += dist_x] and [camera_pos[1] += dist_y], runs the
    cascade exactly once when [force_camera_update] is set, on whichever of
    the two notifications finds the guard down, and leaves the guard
    [has_camera_updated] as it found it; with [force_camera_update] off it
    runs nothing. *)
Theorem camera_move_runs_cascade_once (self : game_view) (dist_x dist_y : Q) :
  gameworld (view_base self) = Some TheWorld →
  systems_ok w →
  ∃ s',
    camera_pos_iadd dist_x dist_y self w =
      Ok (s', if force_camera_update self then cascade_events w else []) ∧
    has_camera_updated s' = has_camera_updated self ∧
    camera_pos s' = ((camera_pos self).1 + dist_x, (camera_pos self).2 + dist_y).
Proof.
  intros Hgw Hsys. eexists. split; [apply camera_pos_iadd_run; auto |].
  split; reflexivity.
Qed.

(** X13: The systems the cascade reaches are exactly those of the world's
    dictionary that are both renderable and active, each called with
    [None]; [paused] plays no part. *)
Theorem cascade_reaches_renderable_active (self : game_view) :
  gameworld (view_base self) = Some TheWorld →
  systems_ok w →
  force_camera_update self = true →
  has_camera_updated self = false →
  ∃ s' events,
    on_camera_pos self w = Ok (s', events) ∧
    ∀ key dt,
      UpdateCall key dt ∈ events ↔
      dt = None ∧
      ∃ r o, (list_to_map (systems w) : gmap string ObjId) !! key = Some r ∧
             objects w !! r = Some o ∧
             renderable (base_of o) = true ∧ active (base_of o) = true.
Proof.
  intros Hgw Hsys Hforce Hguard.
  rewrite (on_camera_pos_spec w Hsys) by exact Hgw. rewrite Hforce, Hguard.
  eexists _, _. split; [reflexivity |].
  intros key dt. unfold cascade_events. rewrite elem_of_cons, list_elem_of_fmap.
  split.
  - intros [Hbad | (k & Heq & Hk)]; [discriminate |].
    injection Heq as -> ->. split; [reflexivity |].
    apply list_elem_of_filter in Hk as [Hra _].
    unfold renderable_active in Hra.
    destruct ((list_to_map (systems w) : gmap string ObjId) !! k) as [r|] eqn:Er;
      [| discriminate].
    destruct (objects w !! r) as [o|] eqn:Eo; [| discriminate].
    apply andb_true_iff in Hra as [Hr Ha]. exists r, o. auto.
  - intros (-> & r & o & Hr & Ho & Hren & Hact). right.
    exists key. split; [reflexivity |].
    apply list_elem_of_filter. split.
    + unfold renderable_active. rewrite Hr, Ho, Hren, Hact. reflexivity.
    + apply elem_of_list_to_map_2 in Hr.
      apply list_elem_of_fmap. exists (key, r). auto.
Qed.

End CameraMoves.

Section UpdateMore.
Import GameView CameraTrace.
Local Open Scope Q_scope.

Variables (self : game_view) (w : game_world).
Variables (i : EntityId) (entity : gmap string PyVal).
Variables (component position_data : PyVal) (p0 p1 : Q) (m : game_map).

Hypothesis Hfocus : focus_entity self = true.
Hypothesis Hid : entity_to_focus self = Some i.
Hypothesis Hentity : entities w !! i = Some entity.
Hypothesis Hcomponent : entity !! focus_position_info_from self = Some component.
Hypothesis Hposition : getitem_key component "position" = Ok position_data.
Hypothesis Hp0 : getitem_num position_data 0 = Ok p0.
Hypothesis Hp1 : getitem_num position_data 1 = Ok p1.
Hypothesis Hmap : has_current_map self w m.
Hypothesis Hsys : systems_ok w.

(** X16: A focus-follow update that moves the camera runs the cascade exactly
    once (when [force_camera_update] is set) and leaves the guard as it
    found it; one that stays in the dead zone runs nothing. *)
Theorem update_runs_cascade_once (dt : option Q) :
  force_camera_update self = true →
  ∃ dist s',
    lock_scroll self w
      (- (camera_pos self).1 - p0 + (size self).1 * (1 # 2))
      (- (camera_pos self).2 - p1 + (size self).2 * (1 # 2)) = Ok dist ∧
    update self w dt =
      Ok (s', if Qle_bool 1 (Qabs dist.1 + Qabs dist.2)
              then cascade_events w else []) ∧
    has_camera_updated s' = has_camera_updated self.
Proof using Hfocus Hid Hentity Hcomponent Hposition Hp0 Hp1 Hmap Hsys.
  intros Hforce. pose proof Hmap as [Hgw _].
  rewrite (update_focus self w dt i entity component position_data p0 p1
             Hfocus Hgw Hid Hentity Hcomponent Hposition Hp0 Hp1).
  rewrite (lock_scroll_axes self w m Hmap).
  set (d := (clamp_axis _ _ _ _ _, clamp_axis _ _ _ _ _)).
  exists d. cbn [mbind Result_bind].
  destruct (Qle_bool 1 (Qabs d.1 + Qabs d.2)).
  - rewrite camera_pos_iadd_run by auto. rewrite Hforce.
    eexists. split; [reflexivity |]. split; reflexivity.
  - exists self. split; [reflexivity |]. split; reflexivity.
Qed.

End UpdateMore.

Section HandlersMore.
Import GameView CameraTrace.
Local Open Scope Q_scope.

Variables (self : game_view) (w : game_world).

(** X17: What stops a focus-follow update: without focus it returns the view
    untouched whatever the world is; with focus it raises [AttributeError]
    when the view is not attached to a world and [KeyError] when
    [entity_to_focus] is [None], names an entity the world does not have,
    or names one without a component of [focus_position_info_from]. *)
Theorem update_lookup_errors (dt : option Q) :
  (focus_entity self = false → update self w dt = Ok (self, [])) ∧
  (focus_entity self = true →
   (gameworld (view_base self) = None → update self w dt = Raise AttributeError) ∧
   (gameworld (view_base self) = Some TheWorld →
    (entity_to_focus self = None → update self w dt = Raise KeyError) ∧
    (∀ i, entity_to_focus self = Some i →
       (entities w !! i = None → update self w dt = Raise KeyError) ∧
       (∀ entity, entities w !! i = Some entity →
          entity !! focus_position_info_from self = None →
          update self w dt = Raise KeyError)))).
Proof.
  unfold update. split; [intros ->; reflexivity |].
  intros ->. unfold the_gameworld. split; [intros ->; reflexivity |].
  intros ->. cbn [mbind Result_bind]. split; [intros ->; reflexivity |].
  intros i ->. unfold entities_getitem. split.
  - intros ->. reflexivity.
  - intros entity -> Hnone. cbn [mbind Result_bind].
    unfold entity_getitem. rewrite Hnone. reflexivity.
Qed.

(** X18: [on_size] without a current map leaves the view as it is; on a view
    that is not attached to a world it raises [AttributeError]. *)
Theorem on_size_without_map :
  (gameworld (view_base self) = None → on_size self w = Raise AttributeError) ∧
  (gameworld (view_base self) = Some TheWorld → currentmap w = None →
   on_size self w = Ok (self, [])).
Proof.
  unfold on_size. change self_lock_scroll with (Ok true).
  cbn [mbind Result_bind]. unfold currentmap_truthy, the_gameworld.
  split; [intros ->; reflexivity | intros -> Hnone].
  cbn [mbind Result_bind]. rewrite Hnone. reflexivity.
Qed.

(** X21: A drag is ignored, without any access to the world, when [do_scroll]
    is off (nothing happens) or when [|dx| + |dy|] is at most 2 (only the
    message is printed). *)
Theorem on_touch_move_ignored (touch : motion_event) :
  (do_scroll self = false → on_touch_move self touch w = Ok (self, [])) ∧
  (do_scroll self = true → Qabs (dx touch) + Qabs (dy touch) <= 2 →
   on_touch_move self touch w = Ok (self, [Printed "doing scroll"])).
Proof.
  unfold on_touch_move. split; [intros ->; reflexivity |].
  intros -> Hsmall. apply Qgt_bool_false in Hsmall. rewrite Hsmall. reflexivity.
Qed.

(** X22: A drag beyond the threshold on a world without current map moves the
    camera by the drag itself, unclamped. *)
Theorem on_touch_move_without_map (touch : motion_event) :
  do_scroll self = true →
  2 < Qabs (dx touch) + Qabs (dy touch) →
  gameworld (view_base self) = Some TheWorld →
  currentmap w = None →
  systems_ok w →
  ∃ s' events,
    on_touch_move self touch w = Ok (s', events) ∧
    camera_pos s' = ((camera_pos self).1 + dx touch, (camera_pos self).2 + dy touch).
Proof.
  intros Hscroll Hbig Hgw Hnone Hsys. unfold on_touch_move. rewrite Hscroll.
  apply Qgt_bool_true in Hbig. rewrite Hbig.
  change self_lock_scroll with (Ok true). cbn [mbind Result_bind].
  unfold currentmap_truthy, the_gameworld. rewrite Hgw.
  cbn [mbind Result_bind]. rewrite Hnone. cbn [mbind Result_bind].
  rewrite camera_pos_iadd_run by auto. cbn [mbind Result_bind].
  eexists _, _. split; reflexivity.
Qed.

End HandlersMore.

Section CameraSamples.
Import GameView CameraTrace.
Local Open Scope Q_scope.

Lemma camera_move_runs_cascade_once_witness :
  ∃ s',
    camera_pos_iadd 3 4 (Sample.focusing_view (0, 0)) (Sample.world 1500 1500)
      = Ok (s', cascade_events (Sample.world 1500 1500)) ∧
    has_camera_updated s' = false ∧ camera_pos s' = (0 + 3, 0 + 4).
Proof.
  apply (camera_move_runs_cascade_once (Sample.world 1500 1500)
           (Sample.focusing_view (0, 0)) 3 4 eq_refl (sample_systems_ok 1500 1500)).
Defined.

Lemma cascade_reaches_renderable_active_witness :
  ∃ s' events,
    on_camera_pos (Sample.focusing_view (0, 0)) (Sample.world 1500 1500)
      = Ok (s', events) ∧
    UpdateCall "renderer" None ∈ events ∧ UpdateCall "default_map" None ∉ events.
Proof.
  destruct (cascade_reaches_renderable_active (Sample.world 1500 1500)
              (Sample.focusing_view (0, 0)) eq_refl (sample_systems_ok 1500 1500)
              eq_refl eq_refl) as (s' & events & Hrun & Hiff).
  exists s', events. split; [exact Hrun |]. split.
  - apply Hiff. split; [reflexivity |].
    exists 2%nat, (AGameSystem (Sample.renderer_system "renderer")).
    repeat split; reflexivity.
  - intros Hin. apply Hiff in Hin as (_ & r & o & Hr & Ho & Hren & _).
    vm_compute in Hr. injection Hr as <-. vm_compute in Ho. injection Ho as <-.
    discriminate.
Defined.

Lemma update_runs_cascade_once_witness :
  ∃ dist s',
    lock_scroll (Sample.focusing_view (-10, -10)) (Sample.world 1500 1500)
      (- (-10) - (801 # 2) + 800 * (1 # 2)) (- (-10) - 300 + 600 * (1 # 2)) = Ok dist ∧
    update (Sample.focusing_view (-10, -10)) (Sample.world 1500 1500) None =
      Ok (s', if Qle_bool 1 (Qabs dist.1 + Qabs dist.2)
              then cascade_events (Sample.world 1500 1500) else []) ∧
    has_camera_updated s' = false.
Proof.
  apply (update_runs_cascade_once (Sample.focusing_view (-10, -10))
           (Sample.world 1500 1500)
           7%nat _ _ _ (801 # 2) 300 (Sample.map 1500 1500)
           eq_refl eq_refl eq_refl eq_refl eq_refl eq_refl eq_refl
           (focusing_has_current_map _ 1500 1500) (sample_systems_ok 1500 1500)
           None eq_refl).
Defined.

Lemma update_lookup_errors_witness :
  update Sample.view (Sample.world 1500 1500) None = Ok (Sample.view, []) ∧
  update (Sample.focusing_view (0, 0))
    (set_entities ∅ (Sample.world 1500 1500)) None = Raise KeyError.
Proof.
  split.
  - apply (update_lookup_errors Sample.view (Sample.world 1500 1500) None).
    reflexivity.
  - destruct (update_lookup_errors (Sample.focusing_view (0, 0))
                (set_entities ∅ (Sample.world 1500 1500)) None) as [_ Herr].
    destruct (Herr eq_refl) as [_ Hattached].
    destruct (Hattached eq_refl) as [_ Hentity].
    apply (Hentity 7%nat eq_refl). reflexivity.
Defined.

Lemma on_size_without_map_witness :
  on_size Sample.view (set_currentmap None (Sample.world 1500 1500))
    = Ok (Sample.view, []).
Proof.
  apply (on_size_without_map Sample.view
           (set_currentmap None (Sample.world 1500 1500))); reflexivity.
Defined.

Lemma on_touch_move_ignored_witness :
  on_touch_move (Sample.focusing_view (0, 0)) (mk_motion_event 1 (-1))
    (Sample.world 1500 1500)
    = Ok (Sample.focusing_view (0, 0), [Printed "doing scroll"]).
Proof.
  apply (on_touch_move_ignored (Sample.focusing_view (0, 0)) (Sample.world 1500 1500)
           (mk_motion_event 1 (-1))); [reflexivity | vm_compute; discriminate].
Defined.

Lemma on_touch_move_without_map_witness :
  ∃ s' events,
    on_touch_move (Sample.focusing_view (0, 0)) (mk_motion_event 40 (-3))
      (set_currentmap None (Sample.world 1500 1500)) = Ok (s', events) ∧
    camera_pos s' = (0 + 40, 0 + -3).
Proof.
  apply (on_touch_move_without_map (Sample.focusing_view (0, 0))
           (set_currentmap None (Sample.world 1500 1500)) (mk_motion_event 40 (-3)));
    [reflexivity | vm_compute; reflexivity | reflexivity | reflexivity
    | exact (sample_systems_ok 1500 1500)].
Defined.

End CameraSamples.

(** ** The build script *)

Section SetupScript.
Import Setup.
Local Open Scope list_scope.

Lemma clear_existing_spec (files : list string) : ∀ (fs : gset string) (x : string),
  x ∈ clear_existing files fs ↔ x ∈ fs ∧ x ∉ files.
Proof.
  induction files as [|f rest IH]; intros fs x; cbn [clear_existing foldl].
  - rewrite elem_of_nil. tauto.
  - fold (clear_existing rest (if decide (f ∈ fs) then fs ∖ {[f]} else fs)).
    rewrite IH, not_elem_of_cons.
    destruct (decide (f ∈ fs)) as [Hf | Hf].
    + rewrite elem_of_difference, elem_of_singleton. tauto.
    + split; [| tauto]. intros [Hx Hrest]. repeat split; try assumption.
      intros ->. contradiction.
Qed.

(** X24: With Cython the script deletes the generated C files of
    [check_for_removal] that exist and no other file; without Cython it
    deletes nothing, so the C sources it is about to build from stay. *)
Theorem script_removes_only_generated_sources
    (cythonize : list Extension → list Extension) (platform : string)
    (environ : gmap string string) (kivy_includes : list string) (fs : gset string) :
  (∀ x, x ∈ (script cythonize true platform environ kivy_includes fs).1 ↔
        x ∈ fs ∧ x ∉ check_for_removal) ∧
  (script cythonize false platform environ kivy_includes fs).1 = fs.
Proof.
  split; [| reflexivity]. intros x. cbn [script do_clear_existing fst].
  apply clear_existing_spec.
Qed.

Lemma build_extensions_for_modules_app platform environ kivy_includes modules :
  ∀ ext_list,
    build_extensions_for_modules platform environ kivy_includes ext_list modules =
      ext_list ++ build_extensions_for_modules platform environ kivy_includes [] modules.
Proof.
  unfold build_extensions_for_modules.
  induction modules as [|module rest IH]; intros ext_list; cbn [foldl].
  - rewrite app_nil_r. reflexivity.
  - rewrite IH. rewrite (IH (add_module _ _ _ [] module)).
    unfold add_module. cbn [app]. rewrite <- app_assoc. reflexivity.
Qed.

Lemma build_extensions_for_modules_cons platform environ kivy_includes module rest :
  build_extensions_for_modules platform environ kivy_includes [] (module :: rest) =
    add_module platform environ kivy_includes [] module
      ++ build_extensions_for_modules platform environ kivy_includes [] rest.
Proof.
  unfold build_extensions_for_modules at 1. cbn [foldl].
  apply build_extensions_for_modules_app.
Qed.

(** X25: [build_extensions_for_modules] keeps the extensions it is given and
    appends one extension per module, in the order of the modules: the
    extension of a module carries the module's name and files, the compile
    flags of the platform, and the [embedsignature] directive exactly when
    the environment has [READTHEDOCS] set to ['True']. *)
Theorem build_extensions_for_modules_spec (platform : string)
    (environ : gmap string string) (kivy_includes : list string)
    (ext_list : list Extension) (modules : list (string * list string)) :
  let result :=
    build_extensions_for_modules platform environ kivy_includes ext_list modules in
  length result = length ext_list + length modules ∧
  (∀ k e, ext_list !! k = Some e → result !! k = Some e) ∧
  (∀ k module, modules !! k = Some module →
     ∃ e, result !! (length ext_list + k) = Some e ∧
          ext_name e = module.1 ∧ ext_files e = module.2 ∧
          include_dirs e = kivy_includes ∧
          extra_compile_args e = [cstdarg platform; "-ffast-math"] ∧
          libraries e = platform_libraries platform ∧
          (pyrex_directives e = Some [("embedsignature", true)] ↔
           environ !! "READTHEDOCS" = Some "True") ∧
          (pyrex_directives e = None ↔ environ !! "READTHEDOCS" ≠ Some "True")).
Proof.
  intros result. subst result. rewrite build_extensions_for_modules_app.
  split; [| split].
  - rewrite length_app. f_equal.
    induction modules as [|module rest IH]; [reflexivity |].
    rewrite build_extensions_for_modules_cons, length_app, IH. reflexivity.
  - intros k e Hk. apply lookup_app_l_Some. exact Hk.
  - intros k module Hk. rewrite lookup_app_r by lia.
    replace (length ext_list + k - length ext_list) with k by lia.
    revert k Hk. induction modules as [|module0 rest IH]; intros k Hk.
    + rewrite lookup_nil in Hk. discriminate.
    + rewrite build_extensions_for_modules_cons. destruct k as [|k].
      * cbn in Hk. injection Hk as ->. unfold add_module. cbn [app lookup].
        destruct (decide (environ !! "READTHEDOCS" = Some "True")) as [Hd | Hd];
          eexists; (split; [reflexivity |]); cbn; repeat split; try tauto;
          try discriminate; try congruence.
      * cbn in Hk. destruct (IH k Hk) as (e & He & Hrest).
        exists e. split; [| exact Hrest]. exact He.
Qed.

End SetupScript.

Lemma build_extensions_for_modules_spec_witness :
  ∃ e,
    Setup.build_extensions_for_modules "win32" {[ "READTHEDOCS" := "True" ]}
      ["include"] [] Setup.particles_modules_c !! 1 = Some e ∧
    Setup.ext_name e = "kivent_maps.map_system" ∧
    Setup.pyrex_directives e = Some [("embedsignature", true)].
Proof.
  destruct (build_extensions_for_modules_spec "win32" {[ "READTHEDOCS" := "True" ]}
              ["include"] [] Setup.particles_modules_c) as (_ & _ & Hnew).
  destruct (Hnew 1 ("kivent_maps.map_system", ["kivent_maps/map_system.c"]) eq_refl)
    as (e & He & Hname & _ & _ & _ & _ & Hdoc & _).
  exists e. split; [exact He |]. split; [exact Hname |].
  apply Hdoc. reflexivity.
Defined.
